(** * LegoWorld V3: the television front end (tizen/js/main.js)

    A shallow embedding of the script that drives the television
    interface: the variables of the [DOMContentLoaded] closure become a
    record, every function of the closure becomes a state transformer of
    the same name, and the browser's event loop becomes a list of events
    folded over the state.

    Conventions.
    - JavaScript numbers that hold integers are [Z]; [%] is [Z.rem]
      (the sign follows the dividend).  Numbers that need not be integers
      (time stamps, ages) are IEEE binary64 values with the arithmetic of
      the standard library's specification of floating point
      ([SpecFloat]), so an age is rounded as the script rounds it.
    - An [await] splits a function in two: the part that issues the
      request ([loadPhotos], [pollTick]) and the part that runs when the
      response arrives ([loadPhotos_resume], [pollTick_resume]).
      Requests in flight are kept in the state.
    - Writes to the document and to the console are appended, in program
      order, to the [effects] log; the script never reads them back. *)

From Stdlib Require Import ZArith QArith Qround String List DecimalString Lia.
From Stdlib Require SpecFloat.
From stdpp Require Import base gmap strings list.

Open Scope Z_scope.

(** ** Data *)

(** [currentView]: 'dashboard', 'video', 'photos', 'fullscreen'. *)
Inductive View := Dashboard | Video | Photos | Fullscreen.

#[global] Instance View_eq_dec : EqDecision View.
Proof. solve_decision. Defined.

(** An entry of [sceneAssets]; [null] is [None]. *)
Record Scene := mkScene {
  img : option string;
  video : option string;
  title : string
}.

(** A JavaScript number: an IEEE binary64 value (zero, finite with sign,
    mantissa and exponent, infinite, or NaN). *)
Definition number : Type := SpecFloat.spec_float.

(** An element of the array served by [/api/photos]. *)
Record Photo := mkPhoto {
  filename : string;
  caption : option string;
  created_at : number
}.

(** What [renderPhotoGrid] puts in a card. *)
Record Card := mkCard {
  card_new : bool;        (* class 'new' and the NEW badge *)
  card_focused : bool;    (* class 'focused' *)
  card_src : string;
  card_caption : string;
  card_time : string
}.

(** Content of [photoGrid] after a rendering. *)
Inductive Grid :=
| NoPhotosYet
| Cards (cards : list Card).

(** The two endpoints the script fetches. *)
Inductive Endpoint := ApiPhotos | ApiState.

#[global] Instance Endpoint_eq_dec : EqDecision Endpoint.
Proof. solve_decision. Defined.

(** Outcome of a [fetch] followed by [response.json()]:
    the promise of [fetch] rejects ([NetworkError]), or a response
    arrives with its [ok] flag and a body that parses as JSON
    ([Some]) or does not ([None]).  The body is read only when [ok]. *)
Inductive Response (A : Type) :=
| NetworkError
| HttpResponse (ok : bool) (json : option A).
Arguments NetworkError {A}.
Arguments HttpResponse {A} ok json.

(** Console output and writes to the document. *)
Inductive Effect :=
| ConsoleLog (msg : string)
| ConsoleError (msg : string)
| SetSrc (element url : string)
| SetText (element text : string)
| ClassAdd (element cls : string)
| ClassRemove (element cls : string)
| VideoLoad
| VideoPlay
| VideoPause
| VideoOnEnded
| RenderGrid (g : Grid).

(** The variables of the closure, and what the browser holds for it. *)
Record State := mkState {
  currentScene : option string;   (* [None] is [undefined] *)
  currentView : View;
  photos : list Photo;
  lastPhotoCount : Z;
  focusedPhotoIndex : Z;
  sceneIndex : Z;
  indicatorHidden : bool;         (* newPhotoIndicator has class 'hidden' *)
  inflight : list Endpoint;       (* fetches issued and not yet settled *)
  hideTimers : nat;               (* pending 5000 ms timeouts *)
  polling : bool;                 (* the 2000 ms interval is registered *)
  clock : Z;                      (* Date.now(), milliseconds *)
  effects : list Effect
}.

Definition Cmd : Type := State -> State.

Definition seq (c1 c2 : Cmd) : Cmd := fun s => c2 (c1 s).
Notation "c1 >> c2" := (seq c1 c2) (at level 90, right associativity).

Definition skip : Cmd := fun s => s.

Definition set_currentScene (v : option string) : Cmd := fun s =>
  mkState v (currentView s) (photos s) (lastPhotoCount s)
    (focusedPhotoIndex s) (sceneIndex s) (indicatorHidden s) (inflight s)
    (hideTimers s) (polling s) (clock s) (effects s).

Definition set_currentView (v : View) : Cmd := fun s =>
  mkState (currentScene s) v (photos s) (lastPhotoCount s)
    (focusedPhotoIndex s) (sceneIndex s) (indicatorHidden s) (inflight s)
    (hideTimers s) (polling s) (clock s) (effects s).

Definition set_photos (v : list Photo) : Cmd := fun s =>
  mkState (currentScene s) (currentView s) v (lastPhotoCount s)
    (focusedPhotoIndex s) (sceneIndex s) (indicatorHidden s) (inflight s)
    (hideTimers s) (polling s) (clock s) (effects s).

Definition set_lastPhotoCount (v : Z) : Cmd := fun s =>
  mkState (currentScene s) (currentView s) (photos s) v
    (focusedPhotoIndex s) (sceneIndex s) (indicatorHidden s) (inflight s)
    (hideTimers s) (polling s) (clock s) (effects s).

Definition set_focusedPhotoIndex (v : Z) : Cmd := fun s =>
  mkState (currentScene s) (currentView s) (photos s) (lastPhotoCount s)
    v (sceneIndex s) (indicatorHidden s) (inflight s)
    (hideTimers s) (polling s) (clock s) (effects s).

Definition set_sceneIndex (v : Z) : Cmd := fun s =>
  mkState (currentScene s) (currentView s) (photos s) (lastPhotoCount s)
    (focusedPhotoIndex s) v (indicatorHidden s) (inflight s)
    (hideTimers s) (polling s) (clock s) (effects s).

Definition set_indicatorHidden (v : bool) : Cmd := fun s =>
  mkState (currentScene s) (currentView s) (photos s) (lastPhotoCount s)
    (focusedPhotoIndex s) (sceneIndex s) v (inflight s)
    (hideTimers s) (polling s) (clock s) (effects s).

Definition set_inflight (v : list Endpoint) : Cmd := fun s =>
  mkState (currentScene s) (currentView s) (photos s) (lastPhotoCount s)
    (focusedPhotoIndex s) (sceneIndex s) (indicatorHidden s) v
    (hideTimers s) (polling s) (clock s) (effects s).

Definition set_hideTimers (v : nat) : Cmd := fun s =>
  mkState (currentScene s) (currentView s) (photos s) (lastPhotoCount s)
    (focusedPhotoIndex s) (sceneIndex s) (indicatorHidden s) (inflight s)
    v (polling s) (clock s) (effects s).

Definition set_polling (v : bool) : Cmd := fun s =>
  mkState (currentScene s) (currentView s) (photos s) (lastPhotoCount s)
    (focusedPhotoIndex s) (sceneIndex s) (indicatorHidden s) (inflight s)
    (hideTimers s) v (clock s) (effects s).

Definition set_clock (v : Z) : Cmd := fun s =>
  mkState (currentScene s) (currentView s) (photos s) (lastPhotoCount s)
    (focusedPhotoIndex s) (sceneIndex s) (indicatorHidden s) (inflight s)
    (hideTimers s) (polling s) v (effects s).

Definition emit (e : Effect) : Cmd := fun s =>
  mkState (currentScene s) (currentView s) (photos s) (lastPhotoCount s)
    (focusedPhotoIndex s) (sceneIndex s) (indicatorHidden s) (inflight s)
    (hideTimers s) (polling s) (clock s) (effects s ++ [e]).

(** ** JavaScript helpers *)

(** Template-literal rendering of an integer-valued number (decimal
    digits; the exponent form used from 1e21 on is not modelled). *)
Definition toString (n : Z) : string := NilZero.string_of_int (Z.to_int n).

(** Rendering of a possibly [undefined] string in a template literal. *)
Definition showName (o : option string) : string :=
  match o with Some x => x | None => "undefined" end.

(** Truthiness of a string-or-null: [null] and [''] are falsy. *)
Definition truthy (o : option string) : option string :=
  match o with
  | Some x => if String.eqb x EmptyString then None else Some x
  | None => None
  end.

(** [x < y] on the values of finite numbers. *)
Definition Qltb (x y : Q) : bool := negb (Qle_bool y x).

(** Binary64: 53 bits of precision, exponents below 1024. *)
Definition prec : Z := 53.
Definition emax : Z := 1024.

(** The number an integer denotes (rounded to nearest, ties to even,
    beyond 2^53). *)
Definition numberOfZ (z : Z) : number :=
  SpecFloat.binary_normalize prec emax z 0 false.

(** [x / y] and [x - y] on numbers. *)
Definition number_div (x y : number) : number := SpecFloat.SFdiv prec emax x y.
Definition number_sub (x y : number) : number := SpecFloat.SFsub prec emax x y.

(** What a number is worth: a rational when finite. *)
Inductive Value :=
| Finite (q : Q)
| PlusInfinity
| MinusInfinity
| NotANumber.

Definition valueOf (x : number) : Value :=
  match x with
  | SpecFloat.S754_zero _ => Finite 0
  | SpecFloat.S754_infinity false => PlusInfinity
  | SpecFloat.S754_infinity true => MinusInfinity
  | SpecFloat.S754_nan => NotANumber
  | SpecFloat.S754_finite negative m e =>
      let q := (inject_Z (Zpos m) * 2 ^ e)%Q in
      Finite (if negative then (- q)%Q else q)
  end.

(** [array.length]. *)
Definition len {A} (l : list A) : Z := Z.of_nat (length l).

(** [array[i]]: [undefined] ([None]) outside the array. *)
Definition at_index {A} (l : list A) (i : Z) : option A :=
  if i <? 0 then None else l !! Z.to_nat i.

(** ** Constants of the script *)

Definition BACKEND_URL : string :=
  "https://marlena-glossological-hyperconfidently.ngrok-free.dev".

Definition sceneAssets : gmap string Scene :=
  list_to_map [
    ("SmartBrick1"%string, mkScene (Some "assets/smartbrick1.jpg"%string) None "SmartBrick");
    ("SmartBrick2"%string, mkScene (Some "assets/smartbrick2.jpg"%string) None "SmartBrick 2");
    ("City"%string, mkScene (Some "assets/city1.jpg"%string) (Some "assets/city.mp4"%string) "City");
    ("Firetruck"%string, mkScene (Some "assets/firetruck.jpg"%string) (Some "assets/firetruck.mp4"%string) "Fire Truck");
    ("Universe"%string, mkScene (Some "assets/Lego universe.jpg"%string) (Some "assets/Lego universe starwars.mp4"%string) "Universe");
    ("Space"%string, mkScene (Some "assets/space.png"%string) (Some "assets/space.mp4"%string) "Space");
    ("Game"%string, mkScene (Some "assets/game.png"%string) None "Game");
    ("MyPhotos"%string, mkScene None None "My Lego")
  ].

Definition sceneOrder : list string :=
  ["SmartBrick1"; "SmartBrick2"; "City"; "Firetruck"; "Universe"; "Space";
   "Game"; "MyPhotos"]%string.

(** ** Small commands for console and document *)

Definition console_log (msg : string) : Cmd := emit (ConsoleLog msg).
Definition console_error (msg : string) : Cmd := emit (ConsoleError msg).
Definition classList_add (element cls : string) : Cmd := emit (ClassAdd element cls).
Definition classList_remove (element cls : string) : Cmd := emit (ClassRemove element cls).

(** ** Photo gallery *)

(** [Date.now() / 1000 - photo.created_at], in binary64: the quotient
    is rounded, then the difference. *)
Definition timeAgo (now : Z) (photo : Photo) : number :=
  number_sub (number_div (numberOfZ now) (numberOfZ 1000)) (created_at photo).

(** [const isNew = timeAgo < 3600], on the value of a finite age. *)
Definition isNew (age : Q) : bool := Qltb age 3600.

(** The cascade that computes [timeStr] in [renderPhotoGrid], on the
    value of a finite age.  Comparing a number with 60, 3600 or 86400 is
    exact, and the floor is taken of the exact quotient. *)
Definition timeStr (age : Q) : string :=
  if Qltb age 60 then "Just now"
  else if Qltb age 3600 then toString (Qfloor (age / 60)) +:+ "m ago"
  else if Qltb age 86400 then toString (Qfloor (age / 3600)) +:+ "h ago"
  else toString (Qfloor (age / 86400)) +:+ "d ago".

(** [isNew] for any age: [-Infinity] is below 3600; [Infinity] and
    [NaN] are below nothing. *)
Definition ageBadge (age : number) : bool :=
  match valueOf age with
  | Finite q => isNew q
  | MinusInfinity => true
  | PlusInfinity | NotANumber => false
  end.

(** [timeStr] for any age: [Infinity] and [NaN] fall through to the
    last branch and are printed as such. *)
Definition ageLabel (age : number) : string :=
  match valueOf age with
  | Finite q => timeStr q
  | MinusInfinity => "Just now"
  | PlusInfinity => "Infinityd ago"
  | NotANumber => "NaNd ago"
  end.

(** [photo.caption || 'My Lego Set']. *)
Definition captionOf (photo : Photo) : string :=
  match truthy (caption photo) with
  | Some c => c
  | None => "My Lego Set"
  end.

Definition photoUrl (photo : Photo) : string :=
  BACKEND_URL +:+ "/api/photos/" +:+ filename photo.

(** Body of the [forEach] callback of [renderPhotoGrid]. *)
Definition renderCard (now focused index : Z) (photo : Photo) : Card :=
  let age := timeAgo now photo in
  mkCard (ageBadge age) (index =? focused) (photoUrl photo) (captionOf photo)
         (ageLabel age).

Fixpoint renderCards (now focused index : Z) (l : list Photo) : list Card :=
  match l with
  | [] => []
  | photo :: rest =>
      renderCard now focused index photo :: renderCards now focused (index + 1) rest
  end.

Definition renderPhotoGrid : Cmd := fun s =>
  match photos s with
  | [] => emit (RenderGrid NoPhotosYet) s
  | _ => emit (RenderGrid (Cards (renderCards (clock s) (focusedPhotoIndex s) 0 (photos s)))) s
  end.

(** [showNewPhotoIndicator]: un-hide, and arm the 5000 ms timeout. *)
Definition showNewPhotoIndicator : Cmd :=
  set_indicatorHidden false >> (fun s => set_hideTimers (S (hideTimers s)) s).

(** The callback of that timeout. *)
Definition indicatorTimeout : Cmd := set_indicatorHidden true.

(** [loadPhotos] up to its first [await]: the request goes out. *)
Definition loadPhotos : Cmd := fun s =>
  set_inflight (inflight s ++ [ApiPhotos]) s.

(** [loadPhotos] from the [await] on, given what the request produced. *)
Definition loadPhotos_resume (r : Response (list Photo)) : Cmd := fun s =>
  match r with
  | NetworkError => console_error "Error loading photos:" s
  | HttpResponse false _ => s
  | HttpResponse true None => console_error "Error loading photos:" s
  | HttpResponse true (Some data) =>
      ((fun s => if lastPhotoCount s <? len data
                 then (console_log "New photos detected!" >> showNewPhotoIndicator) s
                 else s)
       >> set_lastPhotoCount (len data)
       >> set_photos data
       >> renderPhotoGrid) s
  end.

Definition showPhotoGallery : Cmd :=
  console_log "Showing photo gallery"
  >> classList_add "dashboard" "hidden"
  >> classList_remove "dashboard" "active"
  >> classList_add "my-photos-view" "active"
  >> classList_remove "my-photos-view" "hidden"
  >> set_currentView Photos
  >> set_focusedPhotoIndex 0
  >> loadPhotos.

Definition hidePhotoGallery : Cmd := fun s =>
  match currentView s with
  | Photos =>
      (console_log "Hiding photo gallery"
       >> classList_add "my-photos-view" "hidden"
       >> classList_remove "my-photos-view" "active"
       >> classList_add "dashboard" "active"
       >> classList_remove "dashboard" "hidden"
       >> set_currentView Dashboard) s
  | _ => s
  end.

(** [showFullscreenPhoto(photo)]; a falsy argument is [None]. *)
Definition showFullscreenPhoto (photo : option Photo) : Cmd := fun s =>
  match photo with
  | None => s
  | Some p =>
      (console_log "Showing fullscreen photo"
       >> emit (SetSrc "fullscreen-img" (photoUrl p))
       >> emit (SetText "fullscreen-caption" (captionOf p))
       >> classList_add "my-photos-view" "hidden"
       >> classList_add "fullscreen-photo" "active"
       >> classList_remove "fullscreen-photo" "hidden"
       >> set_currentView Fullscreen) s
  end.

Definition hideFullscreenPhoto : Cmd :=
  console_log "Hiding fullscreen photo"
  >> classList_add "fullscreen-photo" "hidden"
  >> classList_remove "fullscreen-photo" "active"
  >> classList_add "my-photos-view" "active"
  >> classList_remove "my-photos-view" "hidden"
  >> set_currentView Photos.

(** ** Video playback *)

(** [scene.video] of the current scene, when truthy.  The outer [None]
    stands for the [TypeError] of reading a property of [undefined]. *)
Definition currentSceneAssets (s : State) : option Scene :=
  match currentScene s with
  | Some name => sceneAssets !! name
  | None => None
  end.

Definition playVideo : Cmd := fun s =>
  match currentSceneAssets s with
  | Some scene =>
      match truthy (video scene) with
      | Some v =>
          (console_log ("Playing video: " +:+ v)
           >> emit (SetSrc "video-source" v)
           >> emit VideoLoad
           >> classList_add "dashboard" "hidden"
           >> classList_remove "dashboard" "active"
           >> classList_add "video-player" "active"
           >> classList_remove "video-player" "hidden"
           >> set_currentView Video
           >> emit VideoPlay
           >> emit VideoOnEnded) s
      | None => s
      end
  | None => s
  end.

Definition stopVideo : Cmd :=
  console_log "Stopping video"
  >> emit VideoPause
  >> emit (SetSrc "video-source" EmptyString)
  >> classList_add "video-player" "hidden"
  >> classList_remove "video-player" "active"
  >> classList_add "dashboard" "active"
  >> classList_remove "dashboard" "hidden"
  >> set_currentView Dashboard.

(** ** Scene navigation *)

(** [updateScene(sceneName)].  With a name outside [sceneAssets] (only
    [undefined] can arise, from an index outside [sceneOrder]) the read
    of [scene.img] throws; nothing follows the call in any caller, so the
    state at the throw is the result. *)
Definition updateScene (sceneName : option string) : Cmd :=
  console_log ("Switching to scene: " +:+ showName sceneName)
  >> set_currentScene sceneName
  >> (fun s =>
        match sceneName with
        | Some name =>
            if String.eqb name "MyPhotos" then showPhotoGallery s
            else
              match sceneAssets !! name with
              | Some scene =>
                  ((match truthy (img scene) with
                    | Some i => emit (SetSrc "bg-image" i)
                    | None => skip
                    end)
                   >> emit (SetText "scene-title" (title scene))) s
              | None => s
              end
        | None => s
        end).

(** [if (currentView === 'photos') { hidePhotoGallery(); }] *)
Definition leaveGallery : Cmd := fun s =>
  match currentView s with
  | Photos => hidePhotoGallery s
  | _ => s
  end.

Definition navigateUp : Cmd := fun s =>
  match currentView s with
  | Dashboard | Photos =>
      (leaveGallery
       >> (fun s => set_sceneIndex
                      (Z.rem (sceneIndex s - 1 + len sceneOrder) (len sceneOrder)) s)
       >> (fun s => updateScene (at_index sceneOrder (sceneIndex s)) s)) s
  | _ => s
  end.

Definition navigateDown : Cmd := fun s =>
  match currentView s with
  | Dashboard | Photos =>
      (leaveGallery
       >> (fun s => set_sceneIndex
                      (Z.rem (sceneIndex s + 1) (len sceneOrder)) s)
       >> (fun s => updateScene (at_index sceneOrder (sceneIndex s)) s)) s
  | _ => s
  end.

Definition handleEnter : Cmd := fun s =>
  match currentView s with
  | Dashboard =>
      match currentSceneAssets s with
      | Some scene =>
          match truthy (video scene) with
          | Some _ => playVideo s
          | None =>
              match currentScene s with
              | Some name => if String.eqb name "MyPhotos" then showPhotoGallery s else s
              | None => s
              end
          end
      | None => s
      end
  | Photos => (console_log "ðŸ”„ Refreshing photos..." >> loadPhotos) s
  | _ => s
  end.

Definition handleBack : Cmd := fun s =>
  match currentView s with
  | Video => stopVideo s
  | Photos => hidePhotoGallery s
  | Fullscreen => hideFullscreenPhoto s
  | Dashboard => s
  end.

(** ** Polling *)

(** [startPolling]: registers the interval, period 2000 ms. *)
Definition pollPeriod : Z := 2000.

Definition startPolling : Cmd := set_polling true.

(** The interval callback up to its [await]: the request goes out,
    whatever is already in flight. *)
Definition pollTick : Cmd := fun s =>
  set_inflight (inflight s ++ [ApiState]) s.

(** The interval callback from the [await] on; [total_count] is the
    field read from the body. *)
Definition pollTick_resume (r : Response Z) : Cmd := fun s =>
  match r with
  | NetworkError => console_error "Polling error:" s
  | HttpResponse false _ => s
  | HttpResponse true None => console_error "Polling error:" s
  | HttpResponse true (Some total_count) =>
      if (lastPhotoCount s <? total_count) && bool_decide (currentView s = Photos)
      then loadPhotos s
      else if lastPhotoCount s <? total_count
           then set_lastPhotoCount total_count s
           else s
  end.

(** ** Remote control *)

(** [case 37]. *)
Definition keyLeft : Cmd := fun s =>
  if bool_decide (currentView s = Photos) && (0 <? focusedPhotoIndex s)
  then (set_focusedPhotoIndex (focusedPhotoIndex s - 1) >> renderPhotoGrid) s
  else s.

(** [case 39]. *)
Definition keyRight : Cmd := fun s =>
  if bool_decide (currentView s = Photos)
     && (focusedPhotoIndex s <? len (photos s) - 1)
  then (set_focusedPhotoIndex (focusedPhotoIndex s + 1) >> renderPhotoGrid) s
  else s.

(** The [switch] of the listener: Up, Down, Enter, Back (Tizen) or
    Escape, Left, Right; other keys fall through. *)
Definition handlerOf (keyCode : Z) : Cmd :=
  match keyCode with
  | 38 => navigateUp
  | 40 => navigateDown
  | 13 => handleEnter
  | 10009 | 27 => handleBack
  | 37 => keyLeft
  | 39 => keyRight
  | _ => skip
  end.

(** The [keydown] listener. *)
Definition keydown (keyCode : Z) : Cmd :=
  console_log ("Key pressed: " +:+ toString keyCode) >> handlerOf keyCode.

(** ** The event loop *)

(** What the browser can deliver to the script.  [PhotosSettled i r]
    settles the [i]-th fetch in flight, which must be one of
    [/api/photos]; likewise [StateSettled].  Settling is in any order. *)
Inductive Event :=
| KeyDown (keyCode : Z)
| IntervalElapsed
| PhotosSettled (i : nat) (r : Response (list Photo))
| StateSettled (i : nat) (r : Response Z)
| IndicatorTimerFired
| VideoEnded
| TimePasses (ms : Z).

Definition step (e : Event) : Cmd := fun s =>
  match e with
  | KeyDown k => keydown k s
  | IntervalElapsed => if polling s then pollTick s else s
  | PhotosSettled i r =>
      match inflight s !! i with
      | Some ApiPhotos => loadPhotos_resume r (set_inflight (delete i (inflight s)) s)
      | _ => s
      end
  | StateSettled i r =>
      match inflight s !! i with
      | Some ApiState => pollTick_resume r (set_inflight (delete i (inflight s)) s)
      | _ => s
      end
  | IndicatorTimerFired =>
      match hideTimers s with
      | S n => (set_hideTimers n >> indicatorTimeout) s
      | O => s
      end
  | VideoEnded =>                 (* [onended = stopVideo]; a video ends only while it plays *)
      match currentView s with
      | Video => stopVideo s
      | _ => s
      end
  | TimePasses ms => set_clock (clock s + Z.max 0 ms) s
  end.

Definition run (trace : list Event) (s : State) : State :=
  fold_left (fun s e => step e s) trace s.

(** The state when the page is loaded, before the script's
    initialisation; [now] is the wall clock.  The indicator starts
    hidden. *)
Definition declared (now : Z) : State :=
  mkState (Some "SmartBrick1"%string) Dashboard [] 0 0 0 true [] 0 false now [].

(** The state after [updateScene(sceneOrder[0]); startPolling();]. *)
Definition initial (now : Z) : State :=
  (updateScene (at_index sceneOrder 0) >> startPolling) (declared now).

(** ** Notions used in the statements *)

(** [sceneName === 'MyPhotos'], for a possibly undefined name. *)
Definition isGallery (sceneName : option string) : bool :=
  match sceneName with
  | Some name => String.eqb name "MyPhotos"
  | None => false
  end.

(** [navigateUp] and [navigateDown] act from the dashboard and from the
    gallery alike; the other two views ignore them. *)
Definition navigable (s : State) : Prop :=
  currentView s = Dashboard \/ currentView s = Photos.

(** [sceneIndex] is a position of [sceneOrder]. *)
Definition indexValid (s : State) : Prop :=
  0 <= sceneIndex s <= len sceneOrder - 1.

(** [moveNext] is Down ([sceneIndex + 1]), [movePrevious] is Up. *)
Inductive Move := MoveNext | MovePrevious.

Definition move (m : Move) : Cmd :=
  match m with
  | MoveNext => navigateDown
  | MovePrevious => navigateUp
  end.

Definition navigate (ms : list Move) (s : State) : State :=
  fold_left (fun s m => move m s) ms s.

(** The fullscreen view is never reached: nothing calls
    [showFullscreenPhoto]. *)
Definition noFullscreen (s : State) : Prop := currentView s <> Fullscreen.

(** Sample data: a photo without caption, taken at the epoch. *)
Definition aPhoto (name : string) : Photo := mkPhoto name None (numberOfZ 0).

(** A fetch fails when the request is rejected, the status is not 2xx,
    or the body of a 2xx response is not JSON. *)
Definition failed {A} (r : Response A) : bool :=
  match r with
  | NetworkError => true
  | HttpResponse false _ => true
  | HttpResponse true None => true
  | HttpResponse true (Some _) => false
  end.

(** Of these, the ones that raise an exception inside the [try]. *)
Definition throws {A} (r : Response A) : bool :=
  match r with
  | NetworkError => true
  | HttpResponse true None => true
  | _ => false
  end.

Definition five : list Photo :=
  [aPhoto "1.jpg"; aPhoto "2.jpg"; aPhoto "3.jpg"; aPhoto "4.jpg";
   aPhoto "5.jpg"].

Definition seven : list Photo := five ++ [aPhoto "6.jpg"; aPhoto "7.jpg"].

(** Five photos loaded, the gallery left again, the indicator timed out. *)
Definition fiveKnown : State :=
  run [KeyDown 38; PhotosSettled 0 (HttpResponse true (Some five));
       KeyDown 10009; IndicatorTimerFired] (initial 0).

(** The count a successful response lets the script observe: the
    length of the array from [/api/photos], [total_count] from
    [/api/state]. *)
Definition observed (e : Event) : option Z :=
  match e with
  | PhotosSettled _ (HttpResponse true (Some data)) => Some (len data)
  | StateSettled _ (HttpResponse true (Some total_count)) => Some total_count
  | _ => None
  end.

(** The backend never loses a photo: the counts observed, in the order
    the responses are handled, never go down, starting from [lo]. *)
Fixpoint neverDecreases (lo : Z) (trace : list Event) : Prop :=
  match trace with
  | [] => True
  | e :: rest =>
      match observed e with
      | Some c => lo <= c /\ neverDecreases c rest
      | None => neverDecreases lo rest
      end
  end.

(** The focus points at a photo, or is 0 when there is none. *)
Definition focusInRange (s : State) : Prop :=
  (0 < len (photos s) -> 0 <= focusedPhotoIndex s <= len (photos s) - 1) /\
  (len (photos s) = 0 -> focusedPhotoIndex s = 0).

(** No event of the trace leaves fewer photos than it found. *)
Fixpoint neverShrinks (trace : list Event) (s : State) : Prop :=
  match trace with
  | [] => True
  | e :: rest =>
      (length (photos s) <= length (photos (step e s)))%nat /\
      neverShrinks rest (step e s)
  end.

(** The scene variables agree with the catalogue: [sceneIndex] is a
    position of [sceneOrder], [currentScene] is the name at that position,
    the gallery is shown only on the gallery scene, and a video plays only
    on a scene that has one. *)
Definition sceneConsistent (s : State) : Prop :=
  indexValid s /\
  currentScene s = at_index sceneOrder (sceneIndex s) /\
  (currentView s = Photos -> sceneIndex s = 7) /\
  (currentView s = Video ->
   exists scene v,
     currentSceneAssets s = Some scene /\ truthy (video scene) = Some v).

(** What every reachable state satisfies. *)
Definition sound (s : State) : Prop := noFullscreen s /\ sceneConsistent s.

(** A visible indicator has a timeout pending. *)
Definition indicatorArmed (s : State) : Prop :=
  indicatorHidden s = false -> (0 < hideTimers s)%nat.


(** The key codes the listener has a [case] for. *)
Definition boundKeys : list Z := [38; 40; 13; 10009; 27; 37; 39].

(** * Properties *)

(** ** Reasoning support *)

(** The catalogue is looked up by name, never unfolded, in the proofs
    about arbitrary scenes. *)
#[local] Opaque sceneAssets.

(** Runs the commands on a state given by its fields: call by value, so
    that a chain of field updates stays linear in size. *)
Ltac cmd_eval :=
  cbv beta iota zeta delta
    [updateScene showPhotoGallery hidePhotoGallery leaveGallery loadPhotos
     loadPhotos_resume playVideo stopVideo hideFullscreenPhoto
     showFullscreenPhoto showNewPhotoIndicator indicatorTimeout
     renderPhotoGrid startPolling pollTick pollTick_resume
     currentSceneAssets handleEnter handleBack keyLeft keyRight
     navigateUp navigateDown
     console_log console_error classList_add classList_remove
     seq skip emit set_currentScene set_currentView set_photos
     set_lastPhotoCount set_focusedPhotoIndex set_sceneIndex
     set_indicatorHidden set_inflight set_hideTimers set_polling set_clock
     currentScene currentView photos lastPhotoCount focusedPhotoIndex
     sceneIndex indicatorHidden inflight hideTimers polling clock effects]
    in *.

(** Splits on a test a command makes, innermost tests first. *)
Ltac split_test :=
  match goal with
  | |- context [match ?x with _ => _ end] =>
      lazymatch x with
      | context [match _ with _ => _ end] => fail
      | _ => destruct x eqn:?
      end
  | H : context [match ?x with _ => _ end] |- _ =>
      lazymatch x with
      | context [match _ with _ => _ end] => fail
      | _ => destruct x eqn:?
      end
  end.

Ltac cmd_cases :=
  cmd_eval; try done;
  repeat (split_test; cmd_eval; try discriminate; try done).

Lemma keydown_handlerOf k s :
  keydown k s = handlerOf k (console_log ("Key pressed: " +:+ toString k) s).
Proof. reflexivity. Qed.

Lemma handlerOf_cases k :
  handlerOf k = navigateUp \/ handlerOf k = navigateDown \/
  handlerOf k = handleEnter \/ handlerOf k = handleBack \/
  handlerOf k = keyLeft \/ handlerOf k = keyRight \/ handlerOf k = skip.
Proof.
  unfold handlerOf.
  repeat match goal with
         | |- context [match ?x with _ => _ end] => destruct x
         end; tauto.
Qed.

(** A property of states kept by every handler of the listener is kept
    by the listener. *)
Lemma keydown_preserves (P : State -> Prop) :
  (forall m s, P s -> P (console_log m s)) ->
  (forall s, P s -> P (navigateUp s)) ->
  (forall s, P s -> P (navigateDown s)) ->
  (forall s, P s -> P (handleEnter s)) ->
  (forall s, P s -> P (handleBack s)) ->
  (forall s, P s -> P (keyLeft s)) ->
  (forall s, P s -> P (keyRight s)) ->
  forall k s, P s -> P (keydown k s).
Proof.
  intros Hlog Hu Hd He Hb Hl Hr k s Hs.
  rewrite keydown_handlerOf.
  destruct (handlerOf_cases k) as [E|[E|[E|[E|[E|[E|E]]]]]]; rewrite E; auto.
  apply Hlog, Hs.
Qed.

(** *** What [updateScene] touches *)

Lemma updateScene_currentScene n s : currentScene (updateScene n s) = n.
Proof. unfold isGallery. destruct s, n; cmd_cases. Qed.

Lemma updateScene_sceneIndex n s : sceneIndex (updateScene n s) = sceneIndex s.
Proof. unfold isGallery. destruct s, n; cmd_cases. Qed.

Lemma updateScene_currentView n s :
  currentView (updateScene n s) = if isGallery n then Photos else currentView s.
Proof. unfold isGallery. destruct s, n; cmd_cases. Qed.

Lemma updateScene_focusedPhotoIndex n s :
  focusedPhotoIndex (updateScene n s) =
  if isGallery n then 0 else focusedPhotoIndex s.
Proof. unfold isGallery. destruct s, n; cmd_cases. Qed.

Lemma updateScene_inflight n s :
  inflight (updateScene n s) =
  if isGallery n then inflight s ++ [ApiPhotos] else inflight s.
Proof. unfold isGallery. destruct s, n; cmd_cases. Qed.

Lemma updateScene_polling n s : polling (updateScene n s) = polling s.
Proof. unfold isGallery. destruct s, n; cmd_cases. Qed.

Lemma updateScene_photos n s : photos (updateScene n s) = photos s.
Proof. unfold isGallery. destruct s, n; cmd_cases. Qed.

Lemma updateScene_lastPhotoCount n s :
  lastPhotoCount (updateScene n s) = lastPhotoCount s.
Proof. unfold isGallery. destruct s, n; cmd_cases. Qed.

Lemma updateScene_indicatorHidden n s :
  indicatorHidden (updateScene n s) = indicatorHidden s.
Proof. unfold isGallery. destruct s, n; cmd_cases. Qed.

(** *** The traversal order *)

Lemma len_sceneOrder : len sceneOrder = 8.
Proof. reflexivity. Qed.

(** The gallery scene sits at the last position, and only there. *)
Lemma isGallery_at_index i :
  0 <= i < 8 -> isGallery (at_index sceneOrder i) = (i =? 7).
Proof.
  intros H.
  assert (i = 0 \/ i = 1 \/ i = 2 \/ i = 3 \/ i = 4 \/ i = 5 \/ i = 6 \/ i = 7)
    as Hi by lia.
  repeat (destruct Hi as [-> | Hi]; [reflexivity|]); subst; reflexivity.
Qed.

(** *** Navigation *)

Lemma leaveGallery_currentView s :
  navigable s -> currentView (leaveGallery s) = Dashboard.
Proof.
  unfold navigable. destruct s; cmd_cases; intros [?|?]; congruence.
Qed.

Lemma leaveGallery_sceneIndex s : sceneIndex (leaveGallery s) = sceneIndex s.
Proof. destruct s; cmd_cases. Qed.

Lemma leaveGallery_focusedPhotoIndex s :
  focusedPhotoIndex (leaveGallery s) = focusedPhotoIndex s.
Proof. destruct s; cmd_cases. Qed.

Lemma leaveGallery_inflight s : inflight (leaveGallery s) = inflight s.
Proof. destruct s; cmd_cases. Qed.

Ltac navigate_fields :=
  rewrite updateScene_sceneIndex, updateScene_currentScene,
    updateScene_currentView, updateScene_focusedPhotoIndex,
    updateScene_inflight;
  unfold set_sceneIndex;
  cbn [sceneIndex currentScene currentView focusedPhotoIndex inflight];
  rewrite leaveGallery_sceneIndex, leaveGallery_focusedPhotoIndex,
    leaveGallery_inflight, leaveGallery_currentView by assumption;
  auto.

Lemma navigateDown_fields s :
  navigable s ->
  let i := Z.rem (sceneIndex s + 1) (len sceneOrder) in
  sceneIndex (navigateDown s) = i /\
  currentScene (navigateDown s) = at_index sceneOrder i /\
  currentView (navigateDown s) =
    (if isGallery (at_index sceneOrder i) then Photos else Dashboard) /\
  focusedPhotoIndex (navigateDown s) =
    (if isGallery (at_index sceneOrder i) then 0 else focusedPhotoIndex s) /\
  inflight (navigateDown s) =
    (if isGallery (at_index sceneOrder i) then inflight s ++ [ApiPhotos]
     else inflight s).
Proof.
  intros Hn. unfold navigateDown, seq.
  destruct Hn as [E|E]; rewrite E;
    (assert (navigable s) by (unfold navigable; auto)); navigate_fields.
Qed.

Lemma navigateUp_fields s :
  navigable s ->
  let i := Z.rem (sceneIndex s - 1 + len sceneOrder) (len sceneOrder) in
  sceneIndex (navigateUp s) = i /\
  currentScene (navigateUp s) = at_index sceneOrder i /\
  currentView (navigateUp s) =
    (if isGallery (at_index sceneOrder i) then Photos else Dashboard) /\
  focusedPhotoIndex (navigateUp s) =
    (if isGallery (at_index sceneOrder i) then 0 else focusedPhotoIndex s) /\
  inflight (navigateUp s) =
    (if isGallery (at_index sceneOrder i) then inflight s ++ [ApiPhotos]
     else inflight s).
Proof.
  intros Hn. unfold navigateUp, seq.
  destruct Hn as [E|E]; rewrite E;
    (assert (navigable s) by (unfold navigable; auto)); navigate_fields.
Qed.

Lemma navigateDown_ignored s : ~ navigable s -> navigateDown s = s.
Proof.
  unfold navigable, navigateDown. destruct (currentView s); tauto.
Qed.

Lemma navigateUp_ignored s : ~ navigable s -> navigateUp s = s.
Proof.
  unfold navigable, navigateUp. destruct (currentView s); tauto.
Qed.

Lemma navigable_after (c : bool) : forall s,
  currentView s = (if c then Photos else Dashboard) -> navigable s.
Proof. intros s E. destruct c; [right|left]; exact E. Qed.

(** Indices inside the traversal order stay inside, and the remainder
    is then the mathematical modulus. *)
Lemma rem_next i : 0 <= i < 8 -> Z.rem (i + 1) 8 = (i + 1) mod 8.
Proof. intros. apply Z.rem_mod_nonneg; lia. Qed.

Lemma rem_prev i : 0 <= i < 8 -> Z.rem (i - 1 + 8) 8 = (i - 1 + 8) mod 8.
Proof. intros. apply Z.rem_mod_nonneg; lia. Qed.

Lemma navigateDown_indexValid s : indexValid s -> indexValid (navigateDown s).
Proof.
  unfold indexValid. rewrite len_sceneOrder. intros H.
  destruct (decide (navigable s)) as [Hn|Hn].
  - destruct (navigateDown_fields s Hn) as [-> _].
    rewrite len_sceneOrder, rem_next by lia.
    pose proof (Z.mod_pos_bound (sceneIndex s + 1) 8). lia.
  - rewrite navigateDown_ignored; auto.
Qed.

Lemma navigateUp_indexValid s : indexValid s -> indexValid (navigateUp s).
Proof.
  unfold indexValid. rewrite len_sceneOrder. intros H.
  destruct (decide (navigable s)) as [Hn|Hn].
  - destruct (navigateUp_fields s Hn) as [-> _].
    rewrite len_sceneOrder, rem_prev by lia.
    pose proof (Z.mod_pos_bound (sceneIndex s - 1 + 8) 8). lia.
  - rewrite navigateUp_ignored; auto.
Qed.

Lemma navigateDown_navigable s : navigable s -> navigable (navigateDown s).
Proof.
  intros Hn. destruct (navigateDown_fields s Hn) as (_ & _ & Hv & _).
  eapply navigable_after, Hv.
Qed.

Lemma navigateUp_navigable s : navigable s -> navigable (navigateUp s).
Proof.
  intros Hn. destruct (navigateUp_fields s Hn) as (_ & _ & Hv & _).
  eapply navigable_after, Hv.
Qed.

(** *** Sequences of moves *)

Lemma move_keeps m s :
  navigable s /\ indexValid s -> navigable (move m s) /\ indexValid (move m s).
Proof.
  intros [Hn Hi]. destruct m; simpl; split;
    auto using navigateDown_navigable, navigateUp_navigable,
      navigateDown_indexValid, navigateUp_indexValid.
Qed.

Lemma navigate_keeps ms : forall s,
  navigable s /\ indexValid s ->
  navigable (navigate ms s) /\ indexValid (navigate ms s).
Proof.
  induction ms as [|m ms IH]; intros s H; simpl; [exact H|].
  apply IH, move_keeps, H.
Qed.

Lemma initial_navigable now : navigable (initial now) /\ indexValid (initial now).
Proof. split; [left; reflexivity | vm_compute; split; discriminate]. Qed.

(** [k] presses of Down from a navigable state advance the index by
    [k] around the circle. *)
Lemma iter_navigateDown k : forall s,
  navigable s -> indexValid s ->
  navigable (Nat.iter k navigateDown s) /\
  sceneIndex (Nat.iter k navigateDown s) = (sceneIndex s + Z.of_nat k) mod 8.
Proof.
  unfold indexValid. rewrite len_sceneOrder.
  induction k as [|k IH]; intros s Hn Hi.
  - simpl. split; [exact Hn|]. rewrite Z.add_0_r, Z.mod_small; lia.
  - destruct (IH s Hn Hi) as [Hn' Hi'].
    rewrite Nat.iter_succ. split; [apply navigateDown_navigable, Hn'|].
    destruct (navigateDown_fields _ Hn') as [-> _].
    rewrite len_sceneOrder, Hi'.
    pose proof (Z.mod_pos_bound (sceneIndex s + Z.of_nat k) 8).
    rewrite rem_next by lia.
    rewrite Zplus_mod_idemp_l. f_equal. lia.
Qed.

(** C4. Along every sequence of [moveNext]/[movePrevious] calls from the
    initial dashboard state, [sceneIndex] stays within [0, n-1], where [n]
    is the length of [sceneOrder]; each call moves it by
    [(index +- 1 + n) mod n]; and [n] calls of [moveNext] bring it back to
    where it was. *)
Theorem sceneIndex_in_range_and_circular (now : Z) (ms : list Move) :
  let s := navigate ms (initial now) in
  let n := len sceneOrder in
  0 <= sceneIndex s <= n - 1 /\
  sceneIndex (navigateDown s) = (sceneIndex s + 1) mod n /\
  sceneIndex (navigateUp s) = (sceneIndex s - 1 + n) mod n /\
  sceneIndex (Nat.iter (length sceneOrder) navigateDown s) = sceneIndex s.
Proof.
  intros s n.
  destruct (navigate_keeps ms _ (initial_navigable now)) as [Hn Hi].
  fold s in Hn, Hi. pose proof Hi as Hi'. unfold indexValid in Hi'.
  subst n. rewrite len_sceneOrder in *.
  split; [exact Hi'|].
  destruct (navigateDown_fields s Hn) as [-> _].
  destruct (navigateUp_fields s Hn) as [-> _].
  rewrite len_sceneOrder, rem_next, rem_prev by lia.
  repeat split.
  destruct (iter_navigateDown (length sceneOrder) s Hn Hi) as [_ ->].
  change (Z.of_nat (length sceneOrder)) with (1 * 8).
  rewrite Z.mod_add, Z.mod_small; lia.
Qed.

(** C2 (as stated).  From the dashboard, [movePrevious] at the first
    scene and [moveNext] at the scene before the gallery both land on the
    gallery scene and switch the view to [Photos]. *)
Lemma navigation_from_dashboard_can_open_gallery :
  currentView (initial 0) = Dashboard /\
  currentView (navigateUp (initial 0)) = Photos /\
  let s := navigate (repeat MoveNext 6) (initial 0) in
  currentView s = Dashboard /\ currentView (navigateDown s) = Photos.
Proof. vm_compute. auto. Qed.

(** C2 (amended).  From the dashboard, [moveNext] and [movePrevious]
    leave the view at [Dashboard] unless the scene they land on is the
    gallery scene, in which case the view becomes [Photos]; with the index
    inside the traversal order that is exactly the step from 6 forwards
    and the step from 0 backwards. *)
Theorem navigation_from_dashboard (s : State) :
  currentView s = Dashboard ->
  currentView (navigateDown s) =
    (if isGallery (currentScene (navigateDown s)) then Photos else Dashboard) /\
  currentView (navigateUp s) =
    (if isGallery (currentScene (navigateUp s)) then Photos else Dashboard) /\
  (indexValid s ->
   (currentView (navigateDown s) = Dashboard <-> sceneIndex s <> 6) /\
   (currentView (navigateUp s) = Dashboard <-> sceneIndex s <> 0)).
Proof.
  intros Hd. assert (navigable s) as Hn by (left; exact Hd).
  destruct (navigateDown_fields s Hn) as (_ & Hsd & Hvd & _).
  destruct (navigateUp_fields s Hn) as (_ & Hsu & Hvu & _).
  rewrite Hsd, Hsu. repeat split; try assumption.
  - rewrite Hvd. rewrite len_sceneOrder.
    unfold indexValid in H; rewrite len_sceneOrder in H.
    rewrite rem_next by lia.
    pose proof (Z.mod_pos_bound (sceneIndex s + 1) 8).
    rewrite isGallery_at_index by lia.
    destruct (Z.eqb_spec ((sceneIndex s + 1) mod 8) 7) as [E|E];
      [discriminate|intros _ Hc; apply E; rewrite Hc; reflexivity].
  - intros Hne. rewrite Hvd, len_sceneOrder.
    unfold indexValid in H; rewrite len_sceneOrder in H.
    rewrite rem_next by lia.
    pose proof (Z.mod_pos_bound (sceneIndex s + 1) 8).
    rewrite isGallery_at_index by lia.
    destruct (Z.eqb_spec ((sceneIndex s + 1) mod 8) 7) as [E|E];
      [|reflexivity].
    destruct (Z.eq_dec (sceneIndex s) 7) as [E7|E7].
    + rewrite E7 in E. discriminate.
    + rewrite Z.mod_small in E; lia.
  - rewrite Hvu, len_sceneOrder.
    unfold indexValid in H; rewrite len_sceneOrder in H.
    rewrite rem_prev by lia.
    pose proof (Z.mod_pos_bound (sceneIndex s - 1 + 8) 8).
    rewrite isGallery_at_index by lia.
    destruct (Z.eqb_spec ((sceneIndex s - 1 + 8) mod 8) 7) as [E|E];
      [discriminate|intros _ Hc; apply E; rewrite Hc; reflexivity].
  - intros Hne. rewrite Hvu, len_sceneOrder.
    unfold indexValid in H; rewrite len_sceneOrder in H.
    rewrite rem_prev by lia.
    pose proof (Z.mod_pos_bound (sceneIndex s - 1 + 8) 8).
    rewrite isGallery_at_index by lia.
    destruct (Z.eqb_spec ((sceneIndex s - 1 + 8) mod 8) 7) as [E|E];
      [|reflexivity].
    replace (sceneIndex s - 1 + 8) with (sceneIndex s - 1 + 1 * 8) in E by lia.
    rewrite Z.mod_add, Z.mod_small in E; lia.
Qed.

Lemma navigation_from_dashboard_witness :
  currentView (navigateDown (initial 0)) = Dashboard /\
  currentScene (navigateDown (initial 0)) = Some "SmartBrick2"%string.
Proof.
  split; [|reflexivity].
  destruct (navigation_from_dashboard (initial 0)) as (_ & _ & H).
  - reflexivity.
  - destruct H as [[_ H] _].
    + vm_compute; split; discriminate.
    + apply H. vm_compute. discriminate.
Defined.

(** *** Properties kept by the event loop *)

(** A property kept by every piece of code the browser can call is kept
    by every event. *)
Lemma step_preserves (P : State -> Prop) :
  (forall k s, P s -> P (keydown k s)) ->
  (forall s, P s -> P (pollTick s)) ->
  (forall l r s, P s -> P (loadPhotos_resume r (set_inflight l s))) ->
  (forall l r s, P s -> P (pollTick_resume r (set_inflight l s))) ->
  (forall n s, P s -> P (indicatorTimeout (set_hideTimers n s))) ->
  (forall s, P s -> P (stopVideo s)) ->
  (forall t s, P s -> P (set_clock t s)) ->
  forall e s, P s -> P (step e s).
Proof.
  intros Hk Hp Hl Hs Ht Hv Hc e s H. destruct e; unfold step, seq.
  - auto.
  - destruct (polling s); auto.
  - destruct (inflight s !! i) as [[|]|]; auto.
  - destruct (inflight s !! i) as [[|]|]; auto.
  - destruct (hideTimers s); auto.
  - destruct (currentView s); auto.
  - auto.
Qed.

Lemma run_preserves (P : State -> Prop) :
  (forall e s, P s -> P (step e s)) ->
  forall trace s, P s -> P (run trace s).
Proof.
  intros Hstep trace. induction trace as [|e trace IH]; intros s H; simpl.
  - exact H.
  - apply IH, Hstep, H.
Qed.

Lemma run_app t1 t2 s : run (t1 ++ t2) s = run t2 (run t1 s).
Proof. unfold run. apply fold_left_app. Qed.

(** Exhaustive check of a handler: the state by its fields, the view by
    cases (every handler starts by testing it), then every other test. *)
Ltac brute :=
  intros;
  repeat match goal with s : State |- _ => destruct s end;
  repeat match goal with v : View |- _ => destruct v end;
  cmd_cases; try congruence.

Lemma step_noFullscreen e s : noFullscreen s -> noFullscreen (step e s).
Proof.
  unfold noFullscreen. revert e s. apply step_preserves.
  - apply keydown_preserves; brute.
  - brute.
  - intros l [|[|] [d|]]; brute.
  - intros l [|[|] [d|]]; brute.
  - brute.
  - brute.
  - brute.
Qed.

Lemma step_polling e s : polling s = true -> polling (step e s) = true.
Proof.
  revert e s. apply step_preserves.
  - apply keydown_preserves; brute.
  - brute.
  - intros l [|[|] [d|]]; brute.
  - intros l [|[|] [d|]]; brute.
  - brute.
  - brute.
  - brute.
Qed.

Lemma reachable_noFullscreen now trace : noFullscreen (run trace (initial now)).
Proof.
  apply run_preserves; [apply step_noFullscreen|]. vm_compute. discriminate.
Qed.

Lemma reachable_polling now trace : polling (run trace (initial now)) = true.
Proof. apply run_preserves; [apply step_polling|]. reflexivity. Qed.

(** *** Polling *)

(** C3 (as stated).  With one poll fetch still in flight, the next
    elapse of the period starts a second one. *)
Lemma poll_ticks_overlap :
  let s := run [IntervalElapsed] (initial 0) in
  inflight s = [ApiState] /\
  inflight (step IntervalElapsed s) = [ApiState; ApiState].
Proof. vm_compute. auto. Qed.

(** C3 (amended).  Poll ticks may overlap: in every state the script
    can reach, an elapse of the 2000 ms period issues a new fetch of
    [/api/state] whatever is still in flight, so that [k] elapses
    without a response leave [k] fetches in flight. *)
Theorem every_tick_issues_a_fetch (now : Z) (trace : list Event) (k : nat) :
  pollPeriod = 2000 /\
  (let s := run trace (initial now) in
   inflight (step IntervalElapsed s) = inflight s ++ [ApiState]) /\
  inflight (run (repeat IntervalElapsed k) (initial now)) = repeat ApiState k.
Proof.
  split; [reflexivity|]. split.
  - simpl. unfold step. rewrite reachable_polling. reflexivity.
  - induction k as [|k IH]; [reflexivity|].
    change (repeat IntervalElapsed (S k))
      with (IntervalElapsed :: repeat IntervalElapsed k).
    rewrite repeat_cons, run_app.
    change (run [IntervalElapsed] ?x) with (step IntervalElapsed x).
    unfold step. rewrite reachable_polling. unfold pollTick, set_inflight.
    cbn [inflight]. rewrite IH, <- repeat_cons. reflexivity.
Qed.

(** *** Entering the gallery *)

Lemma step_entry e s :
  noFullscreen s -> currentView s <> Photos ->
  currentView (step e s) = Photos ->
  focusedPhotoIndex (step e s) = 0 /\
  inflight (step e s) = inflight s ++ [ApiPhotos].
Proof.
  unfold noFullscreen. destruct e; unfold step.
  - rewrite keydown_handlerOf.
    destruct (handlerOf_cases keyCode) as [E|[E|[E|[E|[E|[E|E]]]]]];
      rewrite E; clear E; brute.
  - brute.
  - brute.
  - brute.
  - brute.
  - brute.
  - brute.
Qed.

(** C10. Every entry into the Photos view resets [focusedPhotoIndex] to
    0 and issues a fetch of the photo collection: whatever the script has
    been through, an event that takes it from another view into Photos
    leaves the focus at 0 and one more [/api/photos] request in flight.
    The two ways in are Enter on the gallery scene and navigation that
    lands on it; both go through [showPhotoGallery]. *)
Theorem entering_photos_resets_focus_and_refreshes
    (now : Z) (trace : list Event) (e : Event) :
  let s := run trace (initial now) in
  (currentView s <> Photos ->
   currentView (step e s) = Photos ->
   focusedPhotoIndex (step e s) = 0 /\
   inflight (step e s) = inflight s ++ [ApiPhotos]) /\
  (forall s0 : State,
     currentView (showPhotoGallery s0) = Photos /\
     focusedPhotoIndex (showPhotoGallery s0) = 0 /\
     inflight (showPhotoGallery s0) = inflight s0 ++ [ApiPhotos]) /\
  (forall s0 : State,
     currentView s0 = Dashboard -> isGallery (currentScene s0) = true ->
     handleEnter s0 = showPhotoGallery s0) /\
  (forall s0 : State,
     navigable s0 -> isGallery (currentScene (navigateDown s0)) = true ->
     currentView (navigateDown s0) = Photos /\
     focusedPhotoIndex (navigateDown s0) = 0 /\
     inflight (navigateDown s0) = inflight s0 ++ [ApiPhotos]) /\
  (forall s0 : State,
     navigable s0 -> isGallery (currentScene (navigateUp s0)) = true ->
     currentView (navigateUp s0) = Photos /\
     focusedPhotoIndex (navigateUp s0) = 0 /\
     inflight (navigateUp s0) = inflight s0 ++ [ApiPhotos]).
Proof.
  intros s. split; [|split; [|split; [|split]]].
  - apply step_entry, reachable_noFullscreen.
  - intros s0. destruct s0. cmd_eval. auto.
  - intros s0 Hd Hg. unfold isGallery in Hg.
    destruct (currentScene s0) as [name|] eqn:Hs; [|discriminate].
    apply String.eqb_eq in Hg. subst name.
    unfold handleEnter, currentSceneAssets. rewrite Hd, Hs. reflexivity.
  - intros s0 Hn Hg.
    destruct (navigateDown_fields s0 Hn) as (_ & Hs & Hv & Hf & Hi).
    rewrite Hs in Hg. rewrite Hg in Hv, Hf, Hi. auto.
  - intros s0 Hn Hg.
    destruct (navigateUp_fields s0 Hn) as (_ & Hs & Hv & Hf & Hi).
    rewrite Hs in Hg. rewrite Hg in Hv, Hf, Hi. auto.
Qed.

Lemma entering_photos_witness :
  let trace := [KeyDown 38;
                PhotosSettled 0 (HttpResponse true
                  (Some [aPhoto "a.jpg"; aPhoto "b.jpg"; aPhoto "c.jpg"]));
                KeyDown 39; KeyDown 10009] in
  let s := run trace (initial 0) in
  (currentView s = Dashboard /\ focusedPhotoIndex s = 1) /\
  focusedPhotoIndex (step (KeyDown 13) s) = 0 /\
  inflight (step (KeyDown 13) s) = inflight s ++ [ApiPhotos].
Proof.
  intros trace s. split; [split; reflexivity|].
  apply (proj1 (entering_photos_resets_focus_and_refreshes 0 trace (KeyDown 13))).
  - vm_compute. discriminate.
  - reflexivity.
Defined.

(** *** Back *)

Lemma app_effects {A} (l : list A) a b : (l ++ [a]) ++ b = l ++ a :: b.
Proof. rewrite <- app_assoc. reflexivity. Qed.

(** C5. [dismiss()] undoes each entry.  From Video it returns to the
    dashboard, pausing the video and clearing its source; from Fullscreen
    it returns to Photos; from Photos to the dashboard; on the dashboard
    it does nothing.  It never touches the scene, the photos, the count
    or the focus.  Hence Enter on a scene with a video followed by Back
    is on the dashboard again, and Photos, Fullscreen, Back, Back goes
    through Photos to the dashboard. *)
Theorem dismiss_inverts_entries (s : State) :
  currentView (handleBack s) =
    match currentView s with
    | Video => Dashboard
    | Fullscreen => Photos
    | Photos => Dashboard
    | Dashboard => Dashboard
    end /\
  (currentView s = Video ->
   effects (handleBack s) =
     effects s ++ [ConsoleLog "Stopping video"; VideoPause;
                   SetSrc "video-source" EmptyString;
                   ClassAdd "video-player" "hidden";
                   ClassRemove "video-player" "active";
                   ClassAdd "dashboard" "active";
                   ClassRemove "dashboard" "hidden"]) /\
  (currentView s = Dashboard -> handleBack s = s) /\
  (sceneIndex (handleBack s) = sceneIndex s /\
   currentScene (handleBack s) = currentScene s /\
   photos (handleBack s) = photos s /\
   lastPhotoCount (handleBack s) = lastPhotoCount s /\
   focusedPhotoIndex (handleBack s) = focusedPhotoIndex s) /\
  (currentView s = Dashboard ->
   forall scene v,
     currentSceneAssets s = Some scene -> truthy (video scene) = Some v ->
     currentView (handleEnter s) = Video /\
     currentView (handleBack (handleEnter s)) = Dashboard /\
     sceneIndex (handleBack (handleEnter s)) = sceneIndex s /\
     currentScene (handleBack (handleEnter s)) = currentScene s) /\
  (currentView s = Photos ->
   forall photo,
     currentView (showFullscreenPhoto (Some photo) s) = Fullscreen /\
     currentView (handleBack (showFullscreenPhoto (Some photo) s)) = Photos /\
     currentView (handleBack (handleBack (showFullscreenPhoto (Some photo) s)))
       = Dashboard).
Proof.
  destruct s. split; [cmd_cases|]. split; [|split; [|split; [|split]]].
  - cmd_eval. intros ->. rewrite !app_effects. reflexivity.
  - cmd_eval. intros ->. reflexivity.
  - repeat split; cmd_cases.
  - intros Hd scene v Hscene Hv. cmd_eval. subst.
    repeat (rewrite Hscene || rewrite Hv || cmd_eval). auto.
  - intros Hp photo. cmd_eval. auto.
Qed.

Lemma dismiss_inverts_entries_witness :
  let s := run [KeyDown 40; KeyDown 40] (initial 0) in
  let g := run [KeyDown 38] (initial 0) in
  (currentView (handleEnter s) = Video /\
   currentView (handleBack (handleEnter s)) = Dashboard /\
   sceneIndex (handleBack (handleEnter s)) = sceneIndex s /\
   currentScene (handleBack (handleEnter s)) = currentScene s) /\
  (currentView (showFullscreenPhoto (Some (aPhoto "a.jpg")) g) = Fullscreen /\
   currentView (handleBack (showFullscreenPhoto (Some (aPhoto "a.jpg")) g))
     = Photos /\
   currentView (handleBack (handleBack
     (showFullscreenPhoto (Some (aPhoto "a.jpg")) g))) = Dashboard) /\
  handleBack (initial 0) = initial 0.
Proof.
  intros s g. split; [|split].
  - destruct (dismiss_inverts_entries s) as (_ & _ & _ & _ & H & _).
    apply (H eq_refl
             (mkScene (Some "assets/city1.jpg"%string)
                      (Some "assets/city.mp4"%string) "City")
             "assets/city.mp4"%string);
      vm_compute; reflexivity.
  - destruct (dismiss_inverts_entries g) as (_ & _ & _ & _ & _ & H).
    apply H. reflexivity.
  - destruct (dismiss_inverts_entries (initial 0)) as (_ & _ & H & _).
    apply H. reflexivity.
Defined.

(** *** Failed fetches *)

(** C7 (as stated).  A response with a status outside 2xx is dropped
    without a word: after it, the console holds what it held before. *)
Lemma non_2xx_is_not_logged :
  let notFound : Response (list Photo) := HttpResponse false None in
  let unavailable : Response Z := HttpResponse false None in
  failed notFound = true /\ failed unavailable = true /\
  effects (run [KeyDown 38; PhotosSettled 0 notFound] (initial 0))
    = effects (run [KeyDown 38] (initial 0)) /\
  effects (run [IntervalElapsed; StateSettled 0 unavailable] (initial 0))
    = effects (run [IntervalElapsed] (initial 0)).
Proof. vm_compute. auto. Qed.

(** C7 (amended).  After a failed fetch ([/api/photos] or [/api/state])
    every variable of the script holds what it held before; a rejected
    request and a body that is not JSON are reported with
    [console.error], a status outside 2xx is not reported at all; no
    failure changes the view or stops the script. *)
Theorem failed_fetch_keeps_state
    (s : State) (rp : Response (list Photo)) (rs : Response Z) :
  (failed rp = true ->
   loadPhotos_resume rp s =
     if throws rp then console_error "Error loading photos:" s else s) /\
  (failed rs = true ->
   pollTick_resume rs s =
     if throws rs then console_error "Polling error:" s else s) /\
  (forall msg,
     let s' := console_error msg s in
     photos s' = photos s /\ lastPhotoCount s' = lastPhotoCount s /\
     indicatorHidden s' = indicatorHidden s /\
     hideTimers s' = hideTimers s /\
     focusedPhotoIndex s' = focusedPhotoIndex s /\
     currentView s' = currentView s /\ currentScene s' = currentScene s /\
     sceneIndex s' = sceneIndex s /\ inflight s' = inflight s /\
     polling s' = polling s /\
     effects s' = effects s ++ [ConsoleError msg]).
Proof.
  split; [|split].
  - destruct rp as [|[|] [data|]]; simpl; intros H;
      try discriminate; reflexivity.
  - destruct rs as [|[|] [total|]]; simpl; intros H;
      try discriminate; reflexivity.
  - intros msg. destruct s. cmd_eval. repeat split.
Qed.

Lemma failed_fetch_keeps_state_witness :
  let s := run [KeyDown 38] (initial 0) in
  loadPhotos_resume NetworkError s = console_error "Error loading photos:" s /\
  pollTick_resume (HttpResponse true None) s = console_error "Polling error:" s /\
  loadPhotos_resume (HttpResponse false None) s = s.
Proof.
  intros s. split; [|split].
  - apply (proj1 (failed_fetch_keeps_state s NetworkError NetworkError)).
    reflexivity.
  - apply (proj1 (proj2 (failed_fetch_keeps_state s NetworkError
                           (HttpResponse true None)))).
    reflexivity.
  - apply (proj1 (failed_fetch_keeps_state s (HttpResponse false None)
                    NetworkError)).
    reflexivity.
Defined.

(** *** The scenario: a poll on the dashboard, then the gallery *)

(** C1 (as stated).  In the scenario the refresh on entering the gallery
    brings the seven photos but leaves the indicator hidden: the poll had
    already raised [lastPhotoCount] to 7, so the refresh sees no increase. *)
Lemma scenario_indicator_stays_hidden :
  (currentView fiveKnown = Dashboard /\ lastPhotoCount fiveKnown = 5 /\
   length (photos fiveKnown) = 5%nat /\ indicatorHidden fiveKnown = true) /\
  (let polled :=
     run [IntervalElapsed; StateSettled 0 (HttpResponse true (Some 7))]
         fiveKnown in
   lastPhotoCount polled = 7 /\ photos polled = photos fiveKnown /\
   let refreshed :=
     run [KeyDown 13; PhotosSettled 0 (HttpResponse true (Some seven))]
         polled in
   currentView refreshed = Photos /\ photos refreshed = seven /\
   indicatorHidden refreshed = true).
Proof. vm_compute. repeat split. Qed.

(** C1 (amended).  With [lastPhotoCount = 5] and five photos held, a
    poll that reads [total_count = 7] on the dashboard raises
    [lastPhotoCount] to 7 and leaves the photos and the indicator alone;
    the refresh issued on entering the gallery then replaces the photos
    by the seven delivered and keeps [lastPhotoCount] at 7, and it does
    not show the indicator: the indicator and its timers are as they
    were before the poll. *)
Theorem scenario_poll_then_enter (s : State) (data : list Photo) :
  currentView s = Dashboard ->
  lastPhotoCount s = 5 ->
  length (photos s) = 5%nat ->
  length data = 7%nat ->
  let polled := pollTick_resume (HttpResponse true (Some 7)) s in
  let refreshed :=
    loadPhotos_resume (HttpResponse true (Some data)) (showPhotoGallery polled) in
  (lastPhotoCount polled = 7 /\ photos polled = photos s /\
   indicatorHidden polled = indicatorHidden s /\
   inflight polled = inflight s) /\
  (inflight (showPhotoGallery polled) = inflight s ++ [ApiPhotos]) /\
  (currentView refreshed = Photos /\ photos refreshed = data /\
   lastPhotoCount refreshed = 7 /\
   indicatorHidden refreshed = indicatorHidden s /\
   hideTimers refreshed = hideTimers s).
Proof.
  intros Hv Hc Hp Hd. destruct s. cmd_eval. subst.
  unfold len. rewrite Hd. simpl. cmd_eval.
  destruct data; [discriminate|]. cmd_eval. repeat split.
Qed.

Lemma scenario_poll_then_enter_witness :
  let polled := pollTick_resume (HttpResponse true (Some 7)) fiveKnown in
  let refreshed :=
    loadPhotos_resume (HttpResponse true (Some seven)) (showPhotoGallery polled) in
  photos refreshed = seven /\ lastPhotoCount refreshed = 7 /\
  indicatorHidden refreshed = true.
Proof.
  intros polled refreshed.
  destruct (scenario_poll_then_enter fiveKnown seven) as (_ & _ & H);
    try reflexivity.
  destruct H as (_ & Hp & Hc & Hi & _).
  split; [exact Hp|]. split; [exact Hc|]. exact Hi.
Defined.

(** *** Age labels *)








(** *** The count of known photos *)

Ltac ztests :=
  repeat match goal with
         | H : (_ <? _) = true |- _ => apply Z.ltb_lt in H
         | H : (_ <? _) = false |- _ => apply Z.ltb_ge in H
         end.

Lemma step_lastPhotoCount e s lo :
  lastPhotoCount s <= lo ->
  match observed e with
  | Some c => lo <= c -> lastPhotoCount s <= lastPhotoCount (step e s) <= c
  | None => lastPhotoCount (step e s) = lastPhotoCount s
  end.
Proof.
  destruct e as [k| |i r|i r| | |ms]; unfold step.
  - simpl. rewrite keydown_handlerOf.
    destruct (handlerOf_cases k) as [E|[E|[E|[E|[E|[E|E]]]]]];
      rewrite E; clear E; brute.
  - brute.
  - destruct r as [|[|] [data|]]; simpl; brute; ztests; lia.
  - destruct r as [|[|] [total|]]; simpl; brute; ztests; lia.
  - brute.
  - brute.
  - brute.
Qed.

Lemma run_lastPhotoCount trace : forall s lo,
  lastPhotoCount s <= lo -> neverDecreases lo trace ->
  lastPhotoCount s <= lastPhotoCount (run trace s).
Proof.
  induction trace as [|e trace IH]; intros s lo Hs Ht; simpl in *; [lia|].
  pose proof (step_lastPhotoCount e s lo Hs) as He.
  destruct (observed e) as [c|].
  - destruct Ht as [Hc Ht]. specialize (He Hc).
    specialize (IH (step e s) c (proj2 He) Ht). lia.
  - specialize (IH (step e s) lo). rewrite He in IH. auto.
Qed.

Lemma run_bound t1 : forall s lo t2,
  lastPhotoCount s <= lo -> neverDecreases lo (t1 ++ t2) ->
  exists lo', lastPhotoCount (run t1 s) <= lo' /\ neverDecreases lo' t2.
Proof.
  induction t1 as [|e t1 IH]; intros s lo t2 Hs Ht; simpl in *.
  - exists lo. auto.
  - pose proof (step_lastPhotoCount e s lo Hs) as He.
    destruct (observed e) as [c|].
    + destruct Ht as [Hc Ht]. specialize (He Hc).
      apply (IH (step e s) c t2); [lia|exact Ht].
    + apply (IH (step e s) lo t2); [lia|exact Ht].
Qed.

(** C6 (amended).  With a backend whose photo count never decreases and
    responses handled in the order the backend produced them (the counts
    carried by the successful responses never go down, in the order the
    script handles them), [lastPhotoCount] never decreases: along any run
    of the script, with polls, refreshes and key presses interleaved at
    will, its value after a longer run is at least its value after any
    shorter one. *)
Theorem lastPhotoCount_never_decreases (now : Z) (t1 t2 : list Event) :
  neverDecreases 0 (t1 ++ t2) ->
  lastPhotoCount (run t1 (initial now))
    <= lastPhotoCount (run (t1 ++ t2) (initial now)).
Proof.
  intros H. rewrite run_app.
  destruct (run_bound t1 (initial now) 0 t2) as (lo & Hlo & Ht2);
    [reflexivity|exact H|].
  apply (run_lastPhotoCount t2 _ lo); assumption.
Qed.

Lemma lastPhotoCount_never_decreases_witness :
  let t1 := [KeyDown 38; PhotosSettled 0 (HttpResponse true (Some five));
             KeyDown 10009] in
  let t2 := [IntervalElapsed; StateSettled 0 (HttpResponse true (Some 7));
             KeyDown 13;
             PhotosSettled 0 (HttpResponse true (Some seven))] in
  lastPhotoCount (run t1 (initial 0)) = 5 /\
  lastPhotoCount (run (t1 ++ t2) (initial 0)) = 7 /\
  lastPhotoCount (run t1 (initial 0))
    <= lastPhotoCount (run (t1 ++ t2) (initial 0)).
Proof.
  intros t1 t2. split; [reflexivity|]. split; [reflexivity|].
  apply (lastPhotoCount_never_decreases 0 t1 t2).
  simpl. unfold len. simpl. lia.
Defined.

(** C6 (as stated).  The backend never loses a photo, yet the count
    goes down: two refreshes are in flight, the first answered when the
    backend held five photos, the second when it held seven; the second
    response arrives first and sets [lastPhotoCount] to 7, then the first,
    overtaken, arrives and a successful refresh assigns 5. *)
Example overtaken_response_lowers_count :
  let s := run [KeyDown 38; KeyDown 13;
                PhotosSettled 1 (HttpResponse true (Some seven))] (initial 0) in
  lastPhotoCount s = 7 /\
  lastPhotoCount (step (PhotosSettled 0 (HttpResponse true (Some five))) s) = 5.
Proof. vm_compute. auto. Qed.

(** *** The focused photo *)

Ltac focus_arith :=
  unfold focusInRange, len in *; cmd_eval; cbn [length] in *; ztests;
  repeat match goal with
         | H : _ && _ = true |- _ => apply andb_true_iff in H; destruct H
         end;
  ztests; try lia.

Lemma step_focusInRange e s :
  focusInRange s ->
  (length (photos s) <= length (photos (step e s)))%nat ->
  focusInRange (step e s).
Proof.
  destruct e as [k| |i r|i r| | |ms]; unfold step.
  - rewrite keydown_handlerOf.
    destruct (handlerOf_cases k) as [E|[E|[E|[E|[E|[E|E]]]]]];
      rewrite E; clear E; brute; focus_arith.
  - brute; focus_arith.
  - destruct r as [|[|] [data|]]; brute; focus_arith.
  - destruct r as [|[|] [total|]]; brute; focus_arith.
  - brute; focus_arith.
  - brute; focus_arith.
  - brute; focus_arith.
Qed.

Lemma run_focusInRange trace : forall s,
  focusInRange s -> neverShrinks trace s -> focusInRange (run trace s).
Proof.
  induction trace as [|e trace IH]; intros s Hs Ht; simpl in *; [exact Hs|].
  destruct Ht as [He Ht]. apply IH; [|exact Ht].
  apply step_focusInRange; assumption.
Qed.

(** C8 (as stated).  A refresh that brings fewer photos leaves the
    focus where it was: here on index 1 of an empty gallery. *)
Lemma refresh_can_strand_focus :
  let s := run [KeyDown 38;
                PhotosSettled 0 (HttpResponse true
                  (Some [aPhoto "a.jpg"; aPhoto "b.jpg"]));
                KeyDown 39; KeyDown 13;
                PhotosSettled 0 (HttpResponse true (Some []))] (initial 0) in
  photos s = [] /\ focusedPhotoIndex s = 1 /\ ~ focusInRange s.
Proof.
  intros s. split; [reflexivity|]. split; [reflexivity|].
  intros [_ H]. specialize (H eq_refl). vm_compute in H. discriminate H.
Qed.

(** C8 (amended).  As long as no refresh replaces the photos by a
    shorter collection, [focusedPhotoIndex] stays within
    [0, photoCount-1] when there are photos and is 0 when there are none.
    On an empty gallery with the focus at 0, Left and Right do nothing;
    with the focus on the first photo Left does nothing, and with the
    focus on the last photo Right does nothing. *)
Theorem focus_stays_in_range (now : Z) (trace : list Event) :
  (neverShrinks trace (initial now) ->
   focusInRange (run trace (initial now))) /\
  (forall s, len (photos s) = 0 -> focusedPhotoIndex s = 0 ->
     keyLeft s = s /\ keyRight s = s) /\
  (forall s, focusedPhotoIndex s = 0 -> keyLeft s = s) /\
  (forall s, 0 < len (photos s) ->
     focusedPhotoIndex s = len (photos s) - 1 -> keyRight s = s).
Proof.
  split; [|split; [|split]].
  - apply run_focusInRange. split; [vm_compute; discriminate|reflexivity].
  - intros s Hp Hf. unfold keyLeft, keyRight. rewrite Hf, Hp.
    rewrite !andb_false_r. auto.
  - intros s Hf. unfold keyLeft. rewrite Hf, andb_false_r. reflexivity.
  - intros s Hp Hf. unfold keyRight. rewrite Hf, Z.ltb_irrefl, andb_false_r.
    reflexivity.
Qed.

Lemma focus_stays_in_range_witness :
  let trace := [KeyDown 38;
                PhotosSettled 0 (HttpResponse true
                  (Some [aPhoto "a.jpg"; aPhoto "b.jpg"]));
                KeyDown 39; KeyDown 39; KeyDown 13;
                PhotosSettled 0 (HttpResponse true
                  (Some [aPhoto "a.jpg"; aPhoto "b.jpg"; aPhoto "c.jpg"]))] in
  let s := run trace (initial 0) in
  (focusedPhotoIndex s = 1 /\ length (photos s) = 3%nat) /\
  focusInRange s /\
  keyLeft (initial 0) = initial 0 /\ keyRight (initial 0) = initial 0.
Proof.
  intros trace s. split; [split; reflexivity|]. split.
  - apply (proj1 (focus_stays_in_range 0 trace)).
    subst trace. cbn [neverShrinks].
    repeat split; first [exact I | vm_compute; lia].
  - apply (proj1 (proj2 (focus_stays_in_range 0 []))); reflexivity.
Defined.

(** * Further properties of the script *)

(** ** The listener's dispatch *)

Lemma handlerOf_unbound k : ~ In k boundKeys -> handlerOf k = skip.
Proof.
  unfold boundKeys. simpl. intros H. unfold handlerOf.
  repeat match goal with
         | |- context [match ?x with _ => _ end] => destruct x
         end; try reflexivity; exfalso; apply H; tauto.
Qed.

Lemma handlerOf_dispatch k :
  (k = 38 /\ handlerOf k = navigateUp) \/
  (k = 40 /\ handlerOf k = navigateDown) \/
  (k = 13 /\ handlerOf k = handleEnter) \/
  ((k = 10009 \/ k = 27) /\ handlerOf k = handleBack) \/
  (k = 37 /\ handlerOf k = keyLeft) \/
  (k = 39 /\ handlerOf k = keyRight) \/
  (~ In k boundKeys /\ handlerOf k = skip).
Proof.
  destruct (decide (In k boundKeys)) as [Hin|Hout].
  - unfold boundKeys in Hin. simpl in Hin.
    destruct Hin as [<-|[<-|[<-|[<-|[<-|[<-|[<-|[]]]]]]]]; tauto.
  - do 6 right. split; [exact Hout|apply handlerOf_unbound, Hout].
Qed.

(** X3. A key the listener has no case for is written to the console
    and changes nothing else. *)
Theorem unbound_key_only_logs (k : Z) (s : State) :
  ~ In k boundKeys ->
  keydown k s = console_log ("Key pressed: " +:+ toString k) s.
Proof.
  intros H. rewrite keydown_handlerOf, handlerOf_unbound by exact H.
  reflexivity.
Qed.

Lemma unbound_key_only_logs_witness :
  keydown 65 (initial 0) = console_log "Key pressed: 65" (initial 0).
Proof.
  apply (unbound_key_only_logs 65 (initial 0)).
  unfold boundKeys. simpl. intros H.
  repeat (destruct H as [H|H]; [discriminate H|]). exact H.
Defined.

(** X2. While a video plays (and in the fullscreen view) only Back and
    Escape act: every other key, bound or not, is written to the console
    and changes nothing else. *)
Theorem only_back_acts_during_video (k : Z) (s : State) :
  currentView s = Video \/ currentView s = Fullscreen ->
  k <> 10009 -> k <> 27 ->
  keydown k s = console_log ("Key pressed: " +:+ toString k) s.
Proof.
  intros Hv H1 H2. rewrite keydown_handlerOf.
  destruct (handlerOf_dispatch k)
    as [[_ E]|[[_ E]|[[_ E]|[[Hk _]|[[_ E]|[[_ E]|[_ E]]]]]]];
    try (destruct Hk; congruence); rewrite E; clear E;
    destruct Hv as [Hv|Hv]; destruct s; cmd_eval; subst; reflexivity.
Qed.

Lemma only_back_acts_during_video_witness :
  let s := run [KeyDown 40; KeyDown 40; KeyDown 13] (initial 0) in
  currentView s = Video /\
  keydown 40 s = console_log "Key pressed: 40" s /\
  keydown 13 s = console_log "Key pressed: 13" s.
Proof.
  intros s. split; [reflexivity|]. split.
  - apply (only_back_acts_during_video 40 s);
      [left; reflexivity | discriminate | discriminate].
  - apply (only_back_acts_during_video 13 s);
      [left; reflexivity | discriminate | discriminate].
Defined.

(** X14. Two presses of Back reach the dashboard from every view, and
    there Back changes nothing. *)
Theorem back_twice_reaches_dashboard (s : State) :
  currentView (handleBack (handleBack s)) = Dashboard /\
  handleBack (handleBack (handleBack s)) = handleBack (handleBack s).
Proof. split; brute. Qed.

Lemma step_keeps_scene (e : Event) (s : State) :
  e <> KeyDown 38 -> e <> KeyDown 40 ->
  sceneIndex (step e s) = sceneIndex s /\
  currentScene (step e s) = currentScene s.
Proof.
  intros Hu Hd. destruct e as [k| |i r|i r| | |ms]; unfold step.
  - rewrite keydown_handlerOf.
    destruct (handlerOf_dispatch k)
      as [[-> _]|[[-> _]|[[_ E]|[[_ E]|[[_ E]|[[_ E]|[_ E]]]]]]];
      try congruence; rewrite E; clear E; split; brute.
  - split; brute.
  - destruct r as [|[|] [data|]]; split; brute.
  - destruct r as [|[|] [total|]]; split; brute.
  - split; brute.
  - split; brute.
  - split; brute.
Qed.

(** X15. Only Up and Down change the scene: every other event, key
    press or not, leaves [sceneIndex] and [currentScene] as they are. *)
Theorem scene_changes_only_by_navigation (e : Event) (s : State) :
  e <> KeyDown 38 -> e <> KeyDown 40 ->
  sceneIndex (step e s) = sceneIndex s /\
  currentScene (step e s) = currentScene s.
Proof. intros Hu Hd. apply step_keeps_scene; assumption. Qed.

Lemma scene_changes_only_by_navigation_witness :
  let s := run [KeyDown 40; KeyDown 40] (initial 0) in
  sceneIndex (step (KeyDown 13) s) = 2 /\
  currentScene (step (KeyDown 13) s) = Some "City"%string.
Proof.
  intros s.
  apply (scene_changes_only_by_navigation (KeyDown 13) s); discriminate.
Defined.

(** ** Scene, index and view stay consistent *)

Lemma gallery_index i name :
  0 <= i <= 7 -> at_index sceneOrder i = Some name ->
  String.eqb name "MyPhotos" = true -> i = 7.
Proof.
  intros Hi Hn Hg.
  assert (isGallery (at_index sceneOrder i) = true) as H
    by (rewrite Hn; exact Hg).
  rewrite isGallery_at_index in H by lia. apply Z.eqb_eq, H.
Qed.

Lemma catalogue_total i :
  0 <= i <= 7 ->
  exists name scene,
    at_index sceneOrder i = Some name /\ sceneAssets !! name = Some scene.
Proof.
  intros H.
  assert (i = 0 \/ i = 1 \/ i = 2 \/ i = 3 \/ i = 4 \/ i = 5 \/ i = 6 \/ i = 7)
    as Hi by lia.
  repeat (destruct Hi as [-> | Hi]; [do 2 eexists; split; vm_compute; reflexivity|]).
  subst. do 2 eexists; split; vm_compute; reflexivity.
Qed.

(** A command that keeps the scene, and keeps the view or returns to the
    dashboard, keeps the consistency. *)
Lemma sound_frame (c : Cmd) s :
  (noFullscreen s ->
   sceneIndex (c s) = sceneIndex s /\ currentScene (c s) = currentScene s /\
   (currentView (c s) = currentView s \/ currentView (c s) = Dashboard)) ->
  sound s -> sound (c s).
Proof.
  intros Hc [Hf (Hi & Hs & Hp & Hv)].
  destruct (Hc Hf) as (Ei & Es & Ev).
  unfold sound, noFullscreen, sceneConsistent, indexValid, currentSceneAssets
    in *.
  rewrite Ei, Es.
  destruct Ev as [Ev|Ev]; rewrite Ev; intuition discriminate.
Qed.

Ltac frame_by_cases :=
  apply sound_frame; unfold noFullscreen; brute; auto.

Ltac sound_fields :=
  repeat split; try assumption; try discriminate; try lia.

Lemma sound_handleEnter s : sound s -> sound (handleEnter s).
Proof.
  intros [Hf (Hi & Hs & Hp & Hv)].
  unfold sound, noFullscreen, sceneConsistent, indexValid in *.
  rewrite len_sceneOrder in *.
  destruct s; destruct currentView0; cmd_eval; try tauto.
  (* on the dashboard *)
  destruct currentScene0 as [name|]; cmd_eval; [|sound_fields].
  destruct (sceneAssets !! name) as [scene|] eqn:Ea; cmd_eval;
    [|sound_fields].
  destruct (truthy (video scene)) as [v|] eqn:Ev; cmd_eval.
  - sound_fields. intros _. exists scene, v. auto.
  - destruct (String.eqb name "MyPhotos") eqn:Eg; cmd_eval; sound_fields.
    intros _. symmetry in Hs. eapply gallery_index; eauto.
Qed.

Lemma sound_navigateDown s : sound s -> sound (navigateDown s).
Proof.
  intros Hs. destruct (decide (navigable s)) as [Hn|Hn];
    [|rewrite navigateDown_ignored; auto].
  destruct Hs as [Hf (Hi & _)].
  pose proof (navigateDown_indexValid s Hi) as Hi'.
  destruct (navigateDown_fields s Hn) as (Ei & Es & Ev & _).
  unfold sound, noFullscreen, sceneConsistent.
  unfold indexValid in Hi'. rewrite len_sceneOrder in Hi'.
  rewrite Es, Ev, <- Ei.
  rewrite isGallery_at_index by lia.
  destruct (Z.eqb_spec (sceneIndex (navigateDown s)) 7) as [E|E];
    unfold indexValid; rewrite ?len_sceneOrder; sound_fields; congruence.
Qed.

Lemma sound_navigateUp s : sound s -> sound (navigateUp s).
Proof.
  intros Hs. destruct (decide (navigable s)) as [Hn|Hn];
    [|rewrite navigateUp_ignored; auto].
  destruct Hs as [Hf (Hi & _)].
  pose proof (navigateUp_indexValid s Hi) as Hi'.
  destruct (navigateUp_fields s Hn) as (Ei & Es & Ev & _).
  unfold sound, noFullscreen, sceneConsistent.
  unfold indexValid in Hi'. rewrite len_sceneOrder in Hi'.
  rewrite Es, Ev, <- Ei.
  rewrite isGallery_at_index by lia.
  destruct (Z.eqb_spec (sceneIndex (navigateUp s)) 7) as [E|E];
    unfold indexValid; rewrite ?len_sceneOrder; sound_fields; congruence.
Qed.

Lemma step_sound e s : sound s -> sound (step e s).
Proof.
  revert e s. apply step_preserves.
  - apply keydown_preserves.
    + intros m s. frame_by_cases.
    + apply sound_navigateUp.
    + apply sound_navigateDown.
    + apply sound_handleEnter.
    + intros s. frame_by_cases.
    + intros s. frame_by_cases.
    + intros s. frame_by_cases.
  - intros s. frame_by_cases.
  - intros l r s.
    apply (sound_frame (fun s => loadPhotos_resume r (set_inflight l s))).
    destruct r as [|[|] [d|]]; unfold noFullscreen; brute; auto.
  - intros l r s.
    apply (sound_frame (fun s => pollTick_resume r (set_inflight l s))).
    destruct r as [|[|] [d|]]; unfold noFullscreen; brute; auto.
  - intros n s.
    apply (sound_frame (fun s => indicatorTimeout (set_hideTimers n s))).
    unfold noFullscreen; brute; auto.
  - intros s. frame_by_cases.
  - intros t s. frame_by_cases.
Qed.

Lemma initial_sound now : sound (initial now).
Proof.
  split; [vm_compute; discriminate|].
  split; [vm_compute; split; discriminate|].
  split; [reflexivity|]. split; discriminate.
Qed.

Lemma reachable_sound now trace : sound (run trace (initial now)).
Proof. apply run_preserves; [apply step_sound|apply initial_sound]. Qed.

(** X4. Whatever events the script has handled, [sceneIndex] is a
    position of [sceneOrder], [currentScene] is the name at that position
    and has an entry in [sceneAssets] (the lookups of [handleEnter] and
    [playVideo] never meet an unknown scene), the gallery is shown only
    on the gallery scene, and a video plays only on a scene that has one. *)
Theorem scene_state_consistent (now : Z) (trace : list Event) :
  let s := run trace (initial now) in
  sceneConsistent s /\
  exists name scene,
    currentScene s = Some name /\ currentSceneAssets s = Some scene.
Proof.
  intros s. destruct (reachable_sound now trace) as [_ Hc]. fold s in Hc.
  split; [exact Hc|].
  destruct Hc as (Hi & Hs & _).
  unfold indexValid in Hi. rewrite len_sceneOrder in Hi.
  destruct (catalogue_total (sceneIndex s)) as (name & scene & Hn & Ha);
    [lia|].
  exists name, scene. unfold currentSceneAssets. rewrite Hs, Hn. auto.
Qed.

(** X16. The fullscreen view is never shown: no sequence of events
    brings [currentView] to 'fullscreen', and no event does what
    [showFullscreenPhoto] would do (nothing calls it). *)
Theorem fullscreen_never_shown (now : Z) (trace : list Event) :
  currentView (run trace (initial now)) <> Fullscreen /\
  forall e photo,
    step e (run trace (initial now))
    <> showFullscreenPhoto (Some photo) (run trace (initial now)).
Proof.
  split; [apply reachable_noFullscreen|].
  intros e photo Heq.
  pose proof (reachable_noFullscreen now (trace ++ [e])) as H.
  rewrite run_app in H. simpl in H. unfold noFullscreen in H.
  rewrite Heq in H. apply H.
  destruct (run trace (initial now)). reflexivity.
Qed.

(** X12. Leaving the gallery by navigation always lands on the
    dashboard: in every reachable state that shows the gallery, Down goes
    to the first scene and Up to the scene before the gallery, the view
    becomes the dashboard, and no fetch is issued. *)
Theorem navigation_leaves_gallery (now : Z) (trace : list Event) :
  let s := run trace (initial now) in
  currentView s = Photos ->
  (currentView (navigateDown s) = Dashboard /\
   sceneIndex (navigateDown s) = 0 /\
   currentScene (navigateDown s) = Some "SmartBrick1"%string /\
   inflight (navigateDown s) = inflight s) /\
  (currentView (navigateUp s) = Dashboard /\
   sceneIndex (navigateUp s) = 6 /\
   currentScene (navigateUp s) = Some "Game"%string /\
   inflight (navigateUp s) = inflight s).
Proof.
  intros s Hv. destruct (reachable_sound now trace) as [_ (_ & _ & Hp & _)].
  fold s in Hp. specialize (Hp Hv).
  assert (navigable s) as Hn by (right; exact Hv).
  destruct (navigateDown_fields s Hn) as (Ei & Es & Ev & _ & Ef).
  destruct (navigateUp_fields s Hn) as (Ei' & Es' & Ev' & _ & Ef').
  rewrite Hp in *. split.
  - rewrite Ei, Es, Ev, Ef. repeat split.
  - rewrite Ei', Es', Ev', Ef'. repeat split.
Qed.

Lemma navigation_leaves_gallery_witness :
  let s := run [KeyDown 38] (initial 0) in
  currentView s = Photos /\
  currentView (navigateDown s) = Dashboard /\
  currentScene (navigateUp s) = Some "Game"%string.
Proof.
  intros s. split; [reflexivity|].
  destruct (navigation_leaves_gallery 0 [KeyDown 38]) as [Hd Hu];
    [reflexivity|].
  split; [apply Hd|apply Hu].
Defined.

(** X1. Up and Down undo each other on the scene: from the dashboard
    or the gallery, with the index inside the traversal order, Down then
    Up, and Up then Down, bring [sceneIndex] and [currentScene] back. *)
Theorem up_and_down_are_inverse (s : State) :
  navigable s -> indexValid s ->
  sceneIndex (navigateUp (navigateDown s)) = sceneIndex s /\
  sceneIndex (navigateDown (navigateUp s)) = sceneIndex s /\
  currentScene (navigateUp (navigateDown s))
    = at_index sceneOrder (sceneIndex s) /\
  currentScene (navigateDown (navigateUp s))
    = at_index sceneOrder (sceneIndex s).
Proof.
  intros Hn Hi.
  pose proof (navigateDown_navigable s Hn) as Hnd.
  pose proof (navigateUp_navigable s Hn) as Hnu.
  destruct (navigateDown_fields s Hn) as (Ed & _).
  destruct (navigateUp_fields s Hn) as (Eu & _).
  destruct (navigateUp_fields _ Hnd) as (Eud & Sud & _).
  destruct (navigateDown_fields _ Hnu) as (Edu & Sdu & _).
  rewrite Sud, Sdu, Eud, Edu, Ed, Eu.
  unfold indexValid in Hi. rewrite len_sceneOrder in *.
  assert (sceneIndex s = 0 \/ sceneIndex s = 1 \/ sceneIndex s = 2 \/
          sceneIndex s = 3 \/ sceneIndex s = 4 \/ sceneIndex s = 5 \/
          sceneIndex s = 6 \/ sceneIndex s = 7) as Hc by lia.
  repeat (destruct Hc as [-> | Hc]; [repeat split|]).
  rewrite Hc. repeat split.
Qed.

Lemma up_and_down_are_inverse_witness :
  let s := run [KeyDown 40; KeyDown 40] (initial 0) in
  sceneIndex (navigateUp (navigateDown s)) = 2 /\
  currentScene (navigateDown (navigateUp s)) = Some "City"%string.
Proof.
  intros s.
  destruct (up_and_down_are_inverse s) as (H1 & _ & _ & H4).
  - left. reflexivity.
  - vm_compute. split; discriminate.
  - split; [exact H1|exact H4].
Defined.

(** ** Enter on the dashboard *)

(** X5. On the dashboard, Enter on a scene with a video starts exactly
    that video (source set, loaded, played, with [stopVideo] as its
    end-of-playback callback) and shows the player, without touching the
    scene, the photos or the requests in flight; on a scene without a
    video that is not the gallery scene, Enter does nothing. *)
Theorem enter_on_dashboard (s : State) (scene : Scene) :
  currentView s = Dashboard ->
  currentSceneAssets s = Some scene ->
  (forall v, truthy (video scene) = Some v ->
     currentView (handleEnter s) = Video /\
     effects (handleEnter s) =
       effects s ++ [ConsoleLog ("Playing video: " +:+ v);
                     SetSrc "video-source" v; VideoLoad;
                     ClassAdd "dashboard" "hidden";
                     ClassRemove "dashboard" "active";
                     ClassAdd "video-player" "active";
                     ClassRemove "video-player" "hidden";
                     VideoPlay; VideoOnEnded] /\
     sceneIndex (handleEnter s) = sceneIndex s /\
     currentScene (handleEnter s) = currentScene s /\
     photos (handleEnter s) = photos s /\
     focusedPhotoIndex (handleEnter s) = focusedPhotoIndex s /\
     inflight (handleEnter s) = inflight s) /\
  (truthy (video scene) = None -> isGallery (currentScene s) = false ->
   handleEnter s = s).
Proof.
  intros Hv Ha. destruct s. unfold isGallery. cmd_eval. subst. split.
  - intros v Ev. rewrite Ha, Ev. cmd_eval. rewrite !app_effects.
    repeat split.
  - intros Ev Hg. rewrite Ha, Ev.
    destruct currentScene0 as [name|]; [|discriminate].
    rewrite Hg. reflexivity.
Qed.

Lemma enter_on_dashboard_witness :
  let city := run [KeyDown 40; KeyDown 40] (initial 0) in
  let game := run [KeyDown 38; KeyDown 38] (initial 0) in
  currentView (handleEnter city) = Video /\ handleEnter game = game.
Proof.
  intros city game. split.
  - destruct (enter_on_dashboard city
                (mkScene (Some "assets/city1.jpg"%string)
                         (Some "assets/city.mp4"%string) "City"))
      as [H _]; [reflexivity|vm_compute; reflexivity|].
    apply (H "assets/city.mp4"%string). reflexivity.
  - destruct (enter_on_dashboard game
                (mkScene (Some "assets/game.png"%string) None "Game"))
      as [_ H]; [reflexivity|vm_compute; reflexivity|].
    apply H; reflexivity.
Defined.

(** ** Refreshing the gallery *)

(** X6. A successful refresh replaces the photos by the array received
    and sets [lastPhotoCount] to its length; it shows the indicator (and
    arms one more timeout) exactly when that length exceeds the previous
    [lastPhotoCount]; it leaves view, scene, focus and requests alone.
    Delivering the same array a second time changes neither photos, count,
    indicator nor timers. *)
Theorem refresh_success (s : State) (data : list Photo) :
  let ok := HttpResponse true (Some data) in
  let s' := loadPhotos_resume ok s in
  photos s' = data /\ lastPhotoCount s' = len data /\
  (lastPhotoCount s < len data ->
   indicatorHidden s' = false /\ hideTimers s' = S (hideTimers s)) /\
  (len data <= lastPhotoCount s ->
   indicatorHidden s' = indicatorHidden s /\ hideTimers s' = hideTimers s) /\
  (currentView s' = currentView s /\ currentScene s' = currentScene s /\
   sceneIndex s' = sceneIndex s /\
   focusedPhotoIndex s' = focusedPhotoIndex s /\ inflight s' = inflight s) /\
  (let s'' := loadPhotos_resume ok s' in
   photos s'' = photos s' /\ lastPhotoCount s'' = lastPhotoCount s' /\
   indicatorHidden s'' = indicatorHidden s' /\ hideTimers s'' = hideTimers s').
Proof.
  destruct s. destruct data as [|photo rest]; cmd_eval;
    match goal with
    | |- context [lastPhotoCount0 <? ?n] =>
        destruct (Z.ltb_spec lastPhotoCount0 n) as [H|H]
    end;
    cmd_eval; rewrite ?Z.ltb_irrefl; cmd_eval;
    repeat split; intros; try reflexivity; lia.
Qed.

Lemma refresh_success_witness :
  let s := run [KeyDown 38] (initial 0) in
  let s' := loadPhotos_resume (HttpResponse true (Some five)) s in
  indicatorHidden s' = false /\ hideTimers s' = 1%nat /\
  hideTimers (loadPhotos_resume (HttpResponse true (Some five)) s') = 1%nat.
Proof.
  intros s s'.
  destruct (refresh_success s five) as (_ & _ & H & _ & _ & H').
  destruct H as [Hi Ht]; [reflexivity|].
  split; [exact Hi|]. split; [exact Ht|].
  destruct H' as (_ & _ & _ & Ht'). exact (eq_trans Ht' Ht).
Defined.

(** X7. A poll that reads a higher count while the gallery is shown
    leaves [lastPhotoCount] alone and issues a refresh; when that refresh
    delivers the photos, the indicator is shown, one more timeout is
    armed, and [lastPhotoCount] becomes the new count. *)
Theorem poll_in_gallery_refreshes
    (s : State) (total_count : Z) (data : list Photo) :
  currentView s = Photos ->
  lastPhotoCount s < total_count ->
  len data = total_count ->
  let polled := pollTick_resume (HttpResponse true (Some total_count)) s in
  let refreshed := loadPhotos_resume (HttpResponse true (Some data)) polled in
  (lastPhotoCount polled = lastPhotoCount s /\ photos polled = photos s /\
   indicatorHidden polled = indicatorHidden s /\
   inflight polled = inflight s ++ [ApiPhotos]) /\
  (photos refreshed = data /\ lastPhotoCount refreshed = total_count /\
   indicatorHidden refreshed = false /\
   hideTimers refreshed = S (hideTimers s) /\
   focusedPhotoIndex refreshed = focusedPhotoIndex s).
Proof.
  intros Hv Hlt Hlen. destruct s. cmd_eval. subst.
  apply Z.ltb_lt in Hlt. rewrite Hlt. cbn [andb bool_decide decide_rel].
  rewrite bool_decide_eq_true_2 by reflexivity. cmd_eval. rewrite Hlt.
  destruct data; cmd_eval; repeat split.
Qed.

Lemma poll_in_gallery_refreshes_witness :
  let s := run [KeyDown 38; PhotosSettled 0 (HttpResponse true (Some five));
                IndicatorTimerFired] (initial 0) in
  let polled := pollTick_resume (HttpResponse true (Some 7)) s in
  indicatorHidden s = true /\
  inflight polled = [ApiPhotos] /\
  indicatorHidden
    (loadPhotos_resume (HttpResponse true (Some seven)) polled) = false.
Proof.
  intros s polled. split; [reflexivity|].
  destruct (poll_in_gallery_refreshes s 7 seven) as [Hp Hr];
    [reflexivity|reflexivity|reflexivity|].
  split; [apply Hp|apply Hr].
Defined.

(** ** The new-photo indicator *)

Lemma step_indicator_armed e s : indicatorArmed s -> indicatorArmed (step e s).
Proof.
  revert e s. apply step_preserves.
  - apply keydown_preserves; unfold indicatorArmed; brute; auto.
  - unfold indicatorArmed; brute; auto.
  - unfold indicatorArmed; intros l [|[|] [d|]]; brute; auto; lia.
  - unfold indicatorArmed; intros l [|[|] [d|]]; brute; auto.
  - unfold indicatorArmed; brute; auto.
  - unfold indicatorArmed; brute; auto.
  - unfold indicatorArmed; brute; auto.
Qed.

Lemma timers_hide_indicator n : forall s,
  hideTimers s = n ->
  (n = O -> indicatorHidden s = true) ->
  let s' := run (repeat IndicatorTimerFired n) s in
  indicatorHidden s' = true /\ hideTimers s' = O.
Proof.
  induction n as [|n IH]; intros s Hn H0; simpl.
  - split; [apply H0; reflexivity|exact Hn].
  - apply IH.
    + unfold step. rewrite Hn. destruct s. reflexivity.
    + intros _. unfold step. rewrite Hn. destruct s. reflexivity.
Qed.

(** X8. The indicator is never left showing for good: in every
    reachable state, a visible indicator has a timeout pending, and once
    the pending timeouts have fired the indicator is hidden and none is
    left. *)
Theorem indicator_always_times_out (now : Z) (trace : list Event) :
  let s := run trace (initial now) in
  indicatorArmed s /\
  (let s' := run (repeat IndicatorTimerFired (hideTimers s)) s in
   indicatorHidden s' = true /\ hideTimers s' = O).
Proof.
  intros s.
  assert (indicatorArmed s) as H.
  { subst s. apply run_preserves; [apply step_indicator_armed|].
    unfold indicatorArmed. discriminate. }
  unfold indicatorArmed in H.
  split; [exact H|].
  apply timers_hide_indicator; [reflexivity|].
  intros H0. destruct (indicatorHidden s) eqn:E; [reflexivity|].
  specialize (H eq_refl). lia.
Qed.

(** X9. The timeout of an earlier showing is not cancelled by a later
    one: after two refreshes that each bring more photos, the first
    timeout to fire hides the indicator although the second showing still
    has its own timeout pending. *)
Theorem earlier_timeout_hides_later_showing
    (s : State) (data1 data2 : list Photo) :
  lastPhotoCount s < len data1 -> len data1 < len data2 ->
  let s2 := loadPhotos_resume (HttpResponse true (Some data2))
              (loadPhotos_resume (HttpResponse true (Some data1)) s) in
  indicatorHidden s2 = false /\ hideTimers s2 = S (S (hideTimers s)) /\
  indicatorHidden (step IndicatorTimerFired s2) = true /\
  hideTimers (step IndicatorTimerFired s2) = S (hideTimers s).
Proof.
  intros H1 H2. apply Z.ltb_lt in H1, H2.
  destruct s, data1, data2; cmd_eval; cbn [step];
    cmd_eval; rewrite ?H1; cmd_eval; rewrite ?H2; cmd_eval;
    try discriminate; repeat split.
Qed.

Lemma earlier_timeout_hides_later_showing_witness :
  let s2 := loadPhotos_resume (HttpResponse true (Some seven))
              (loadPhotos_resume (HttpResponse true (Some five)) (initial 0)) in
  indicatorHidden s2 = false /\ hideTimers s2 = 2%nat /\
  indicatorHidden (step IndicatorTimerFired s2) = true /\
  hideTimers (step IndicatorTimerFired s2) = 1%nat.
Proof.
  apply (earlier_timeout_hides_later_showing (initial 0) five seven);
    reflexivity.
Defined.

(** ** The rendered grid *)



(** ** What changes the gallery data *)

(** X11. The photos are only ever replaced as a whole, by a successful
    response of [/api/photos]: every other event (keys, polls, failed
    fetches, timers) leaves [photos] as it is, and every event that
    carries no count leaves [lastPhotoCount] as it is. *)
Theorem photos_replaced_only_by_refresh (e : Event) (s : State) :
  (photos (step e s) = photos s \/
   exists i data,
     e = PhotosSettled i (HttpResponse true (Some data)) /\
     photos (step e s) = data) /\
  (observed e = None ->
   photos (step e s) = photos s /\
   lastPhotoCount (step e s) = lastPhotoCount s).
Proof.
  split.
  - destruct e as [k| |i r|i r| | |ms]; unfold step.
    + left. rewrite keydown_handlerOf.
      destruct (handlerOf_cases k) as [E|[E|[E|[E|[E|[E|E]]]]]];
        rewrite E; clear E; brute.
    + left. brute.
    + destruct r as [|[|] [data|]]; try solve [left; brute].
      destruct (inflight s !! i) as [[|]|] eqn:Ei; [|left; reflexivity..].
      right. exists i, data. split; [reflexivity|]. brute.
    + left. destruct r as [|[|] [total|]]; brute.
    + left. brute.
    + left. brute.
    + left. brute.
  - intros Ho. pose proof (step_lastPhotoCount e s (lastPhotoCount s)) as H.
    rewrite Ho in H. split; [|apply H; lia].
    destruct e as [k| |i r|i r| | |ms]; unfold step.
    + rewrite keydown_handlerOf.
      destruct (handlerOf_cases k) as [E|[E|[E|[E|[E|[E|E]]]]]];
        rewrite E; clear E; brute.
    + brute.
    + destruct r as [|[|] [data|]]; try discriminate; brute.
    + destruct r as [|[|] [total|]]; brute.
    + brute.
    + brute.
    + brute.
Qed.

Lemma photos_replaced_only_by_refresh_witness :
  let s := run [KeyDown 38; PhotosSettled 0 (HttpResponse true (Some five))]
               (initial 0) in
  photos (step (KeyDown 13) s) = five /\
  lastPhotoCount (step (KeyDown 13) s) = 5.
Proof.
  intros s.
  apply (proj2 (photos_replaced_only_by_refresh (KeyDown 13) s)).
  reflexivity.
Defined.

(** ** Moving the focus *)

Lemma renderPhotoGrid_fields s :
  currentView (renderPhotoGrid s) = currentView s /\
  focusedPhotoIndex (renderPhotoGrid s) = focusedPhotoIndex s /\
  photos (renderPhotoGrid s) = photos s.
Proof. destruct s. cmd_cases. Qed.

Lemma keyRight_moves s :
  currentView s = Photos -> focusedPhotoIndex s < len (photos s) - 1 ->
  keyRight s
    = renderPhotoGrid (set_focusedPhotoIndex (focusedPhotoIndex s + 1) s).
Proof.
  intros Hv Hf. unfold keyRight, seq.
  rewrite bool_decide_eq_true_2 by exact Hv.
  apply Z.ltb_lt in Hf. rewrite Hf. reflexivity.
Qed.

Lemma keyLeft_moves s :
  currentView s = Photos -> 0 < focusedPhotoIndex s ->
  keyLeft s
    = renderPhotoGrid (set_focusedPhotoIndex (focusedPhotoIndex s - 1) s).
Proof.
  intros Hv Hf. unfold keyLeft, seq.
  rewrite bool_decide_eq_true_2 by exact Hv.
  apply Z.ltb_lt in Hf. rewrite Hf. reflexivity.
Qed.

(** X13. Left and Right act only in the gallery.  There, Right moves
    the focus one photo on when a next photo exists and Left moves it one
    back when a previous one exists, each followed by a rendering; from a
    focus inside the photos the two undo each other.  Neither changes the
    photos, the count, the view or the requests in flight. *)
Theorem focus_keys (s : State) :
  (currentView s <> Photos -> keyLeft s = s /\ keyRight s = s) /\
  (currentView s = Photos ->
   0 <= focusedPhotoIndex s < len (photos s) - 1 ->
   focusedPhotoIndex (keyRight s) = focusedPhotoIndex s + 1 /\
   focusedPhotoIndex (keyLeft (keyRight s)) = focusedPhotoIndex s) /\
  (currentView s = Photos ->
   0 < focusedPhotoIndex s <= len (photos s) - 1 ->
   focusedPhotoIndex (keyLeft s) = focusedPhotoIndex s - 1 /\
   focusedPhotoIndex (keyRight (keyLeft s)) = focusedPhotoIndex s) /\
  (photos (keyLeft s) = photos s /\ photos (keyRight s) = photos s /\
   lastPhotoCount (keyLeft s) = lastPhotoCount s /\
   lastPhotoCount (keyRight s) = lastPhotoCount s /\
   currentView (keyLeft s) = currentView s /\
   currentView (keyRight s) = currentView s /\
   inflight (keyLeft s) = inflight s /\ inflight (keyRight s) = inflight s).
Proof.
  split; [|split; [|split]].
  - intros Hv. unfold keyLeft, keyRight.
    rewrite bool_decide_eq_false_2 by exact Hv. auto.
  - intros Hv [H0 H1].
    rewrite (keyRight_moves s Hv H1).
    set (s1 := renderPhotoGrid (set_focusedPhotoIndex (focusedPhotoIndex s + 1) s)).
    destruct (renderPhotoGrid_fields
                (set_focusedPhotoIndex (focusedPhotoIndex s + 1) s))
      as (Ev & Ef & Ep).
    fold s1 in Ev, Ef, Ep.
    assert (focusedPhotoIndex s1 = focusedPhotoIndex s + 1) as Ef'
      by (rewrite Ef; destruct s; reflexivity).
    assert (currentView s1 = Photos) as Ev'
      by (rewrite Ev; destruct s; exact Hv).
    split; [exact Ef'|].
    rewrite (keyLeft_moves s1 Ev') by lia.
    destruct (renderPhotoGrid_fields
                (set_focusedPhotoIndex (focusedPhotoIndex s1 - 1) s1))
      as (_ & -> & _).
    unfold set_focusedPhotoIndex. cbn [focusedPhotoIndex]. lia.
  - intros Hv [H0 H1].
    rewrite (keyLeft_moves s Hv H0).
    set (s1 := renderPhotoGrid (set_focusedPhotoIndex (focusedPhotoIndex s - 1) s)).
    destruct (renderPhotoGrid_fields
                (set_focusedPhotoIndex (focusedPhotoIndex s - 1) s))
      as (Ev & Ef & Ep).
    fold s1 in Ev, Ef, Ep.
    assert (focusedPhotoIndex s1 = focusedPhotoIndex s - 1) as Ef'
      by (rewrite Ef; destruct s; reflexivity).
    assert (currentView s1 = Photos) as Ev'
      by (rewrite Ev; destruct s; exact Hv).
    assert (photos s1 = photos s) as Ep'
      by (rewrite Ep; destruct s; reflexivity).
    split; [exact Ef'|].
    rewrite (keyRight_moves s1 Ev') by (rewrite Ep'; lia).
    destruct (renderPhotoGrid_fields
                (set_focusedPhotoIndex (focusedPhotoIndex s1 + 1) s1))
      as (_ & -> & _).
    unfold set_focusedPhotoIndex. cbn [focusedPhotoIndex]. lia.
  - repeat split; brute.
Qed.

Lemma focus_keys_witness :
  let s := run [KeyDown 38; PhotosSettled 0 (HttpResponse true (Some five));
                KeyDown 39] (initial 0) in
  focusedPhotoIndex s = 1 /\
  focusedPhotoIndex (keyRight s) = 2 /\
  focusedPhotoIndex (keyLeft (keyRight s)) = 1 /\
  focusedPhotoIndex (keyRight (keyLeft s)) = 1 /\
  keyRight (initial 0) = initial 0.
Proof.
  intros s. split; [reflexivity|].
  destruct (focus_keys s) as (_ & Hr & Hl & _).
  destruct Hr as [H1 H2];
    [reflexivity|vm_compute; split; [discriminate|reflexivity]|].
  destruct Hl as [_ H3];
    [reflexivity|vm_compute; split; [reflexivity|discriminate]|].
  split; [exact H1|]. split; [exact H2|]. split; [exact H3|].
  apply (proj1 (focus_keys (initial 0))). discriminate.
Defined.

(** ** Polls *)

(** X17. A poll never lowers [lastPhotoCount], whatever the backend
    answers; it never touches the photos, the indicator, the focus or the
    view; and it raises the count only outside the gallery (in the gallery
    it issues a refresh instead). *)
Theorem poll_never_lowers_count (r : Response Z) (s : State) :
  let s' := pollTick_resume r s in
  lastPhotoCount s <= lastPhotoCount s' /\
  photos s' = photos s /\ indicatorHidden s' = indicatorHidden s /\
  hideTimers s' = hideTimers s /\
  focusedPhotoIndex s' = focusedPhotoIndex s /\
  currentView s' = currentView s /\
  (lastPhotoCount s' <> lastPhotoCount s -> currentView s <> Photos) /\
  (currentView s = Photos -> inflight s' <> inflight s ->
   inflight s' = inflight s ++ [ApiPhotos]).
Proof.
  destruct r as [|[|] [total|]]; destruct s, currentView0; cmd_eval;
    try (destruct (Z.ltb_spec lastPhotoCount0 total));
    cbn [andb bool_decide decide_rel]; cmd_eval;
    rewrite ?bool_decide_eq_true_2, ?bool_decide_eq_false_2 by congruence;
    cmd_eval; repeat split; intros; try congruence; try lia.
Qed.

Lemma poll_never_lowers_count_witness :
  let s := run [KeyDown 38] (initial 0) in
  let s' := pollTick_resume (HttpResponse true (Some 7)) s in
  lastPhotoCount s' = 0 /\ inflight s' = [ApiPhotos; ApiPhotos] /\
  lastPhotoCount (pollTick_resume (HttpResponse true (Some 7)) (initial 0)) = 7.
Proof.
  intros s s'. split; [reflexivity|]. split; [|reflexivity].
  destruct (poll_never_lowers_count (HttpResponse true (Some 7)) s)
    as (_ & _ & _ & _ & _ & _ & _ & H).
  apply H; [reflexivity|discriminate].
Defined.

(** ** Going round the scenes *)

Lemma iter_navigateUp k : forall s,
  navigable s -> indexValid s ->
  navigable (Nat.iter k navigateUp s) /\
  sceneIndex (Nat.iter k navigateUp s) = (sceneIndex s - Z.of_nat k) mod 8.
Proof.
  unfold indexValid. rewrite len_sceneOrder.
  induction k as [|k IH]; intros s Hn Hi.
  - simpl. split; [exact Hn|]. rewrite Z.sub_0_r, Z.mod_small; lia.
  - destruct (IH s Hn Hi) as [Hn' Hi'].
    rewrite Nat.iter_succ. split; [apply navigateUp_navigable, Hn'|].
    destruct (navigateUp_fields _ Hn') as [-> _].
    rewrite len_sceneOrder, Hi'.
    pose proof (Z.mod_pos_bound (sceneIndex s - Z.of_nat k) 8).
    rewrite rem_prev by lia.
    replace ((sceneIndex s - Z.of_nat k) mod 8 - 1 + 8)
      with ((sceneIndex s - Z.of_nat k) mod 8 + 7) by lia.
    rewrite Zplus_mod_idemp_l.
    replace (sceneIndex s - Z.of_nat k + 7)
      with (sceneIndex s - Z.of_nat (S k) + 1 * 8) by lia.
    apply Z.mod_add. lia.
Qed.

(** X18. From the dashboard or the gallery, [k] presses of Down move
    [sceneIndex] forward by [k] around the eight scenes and [k] presses of
    Up move it back by [k]; eight presses either way return to the same
    scene. *)
Theorem presses_go_round (k : nat) (s : State) :
  navigable s -> indexValid s ->
  sceneIndex (Nat.iter k navigateDown s) = (sceneIndex s + Z.of_nat k) mod 8 /\
  sceneIndex (Nat.iter k navigateUp s) = (sceneIndex s - Z.of_nat k) mod 8 /\
  sceneIndex (Nat.iter 8 navigateUp s) = sceneIndex s /\
  currentScene (Nat.iter 8 navigateUp s) = at_index sceneOrder (sceneIndex s) /\
  currentScene (Nat.iter 8 navigateDown s) = at_index sceneOrder (sceneIndex s).
Proof.
  intros Hn Hi.
  destruct (iter_navigateDown k s Hn Hi) as [_ Hd].
  destruct (iter_navigateUp k s Hn Hi) as [_ Hu].
  destruct (iter_navigateUp 7 s Hn Hi) as [Hn7 Hu7].
  destruct (iter_navigateDown 7 s Hn Hi) as [Hd7n Hd7].
  destruct (navigateUp_fields _ Hn7) as (Ei & Es & _).
  destruct (navigateDown_fields _ Hd7n) as (Ei' & Es' & _).
  change (Nat.iter 8 navigateUp s) with (navigateUp (Nat.iter 7 navigateUp s)).
  change (Nat.iter 8 navigateDown s)
    with (navigateDown (Nat.iter 7 navigateDown s)).
  rewrite Es, Es', Ei, Hu7, Hd7.
  unfold indexValid in Hi. rewrite len_sceneOrder in *.
  split; [exact Hd|]. split; [exact Hu|].
  assert (sceneIndex s = 0 \/ sceneIndex s = 1 \/ sceneIndex s = 2 \/
          sceneIndex s = 3 \/ sceneIndex s = 4 \/ sceneIndex s = 5 \/
          sceneIndex s = 6 \/ sceneIndex s = 7) as Hc by lia.
  repeat (destruct Hc as [-> | Hc]; [repeat split|]).
  rewrite Hc. repeat split.
Qed.

Lemma presses_go_round_witness :
  sceneIndex (Nat.iter 3 navigateUp (initial 0)) = 5 /\
  currentScene (Nat.iter 8 navigateUp (initial 0)) = Some "SmartBrick1"%string.
Proof.
  destruct (presses_go_round 3 (initial 0)) as (_ & Hu & _ & Hs & _).
  - left. reflexivity.
  - vm_compute. split; discriminate.
  - split; [exact Hu|exact Hs].
Defined.

(** ** The numbers in the age labels *)



